(** * commit-msg linter hook: a shallow embedding of [src/commit_msg/hook.py]

    The hook reads the commit message file, drops comment lines, and runs
    eight validators in a fixed order, printing a report line after each and
    returning [1] at the first one that fails.

    - Python [str] values are lists of Unicode code points ([pystr]).
    - Python [int] values are [Z].
    - A validator returns a pair [(flag, hint)] or raises; the dynamically
      typed hint is the tagged union [hint].
    - [lint_commit_message] prints and returns early; it is written in a
      small writer monad with early return and exceptions, whose trace also
      records every validator call. *)

From Stdlib Require Import List ZArith NArith Bool Lia String Ascii.
Import ListNotations.

(* ===================================================================== *)
(** ** Python runtime primitives used by the hook *)
(* ===================================================================== *)

Module Py.

(** A [str] is a sequence of code points. *)
Definition char := N.
Definition pystr := list char.

(** ASCII literals of the source text. *)
Definition lit (s : string) : pystr :=
  List.map N_of_ascii (list_ascii_of_string s).

(** The newline character. *)
Definition nl : char := 10%N.

(** A literal followed by a newline, as [readlines] returns it. *)
Definition line (s : string) : pystr := lit s ++ [nl].

(** The exceptions the hook can raise. *)
Inductive exn := IndexError | TypeError | ValueError | UnboundLocalError.

Definition result (A : Type) := (exn + A)%type.

Definition in_ranges (rs : list (N * N)) (c : char) : bool :=
  existsb (fun r => (fst r <=? c)%N && (c <=? snd r)%N) rs.

(** [str.isspace] on one character (CPython 3.11, Unicode 14). *)
Definition space_ranges : list (N * N) :=
  [(9, 13); (28, 32); (133, 133); (160, 160); (5760, 5760); (8192, 8202);
   (8232, 8233); (8239, 8239); (8287, 8287); (12288, 12288)]%N.

Definition isspace_char : char -> bool := in_ranges space_ranges.

(** [str.isdigit] on one character (CPython 3.11, Unicode 14). *)
Definition digit_ranges : list (N * N) :=
  [(48, 57); (178, 179); (185, 185); (1632, 1641); (1776, 1785);
   (1984, 1993); (2406, 2415); (2534, 2543); (2662, 2671); (2790, 2799);
   (2918, 2927); (3046, 3055); (3174, 3183); (3302, 3311); (3430, 3439);
   (3558, 3567); (3664, 3673); (3792, 3801); (3872, 3881); (4160, 4169);
   (4240, 4249); (4969, 4977); (6112, 6121); (6160, 6169); (6470, 6479);
   (6608, 6618); (6784, 6793); (6800, 6809); (6992, 7001); (7088, 7097);
   (7232, 7241); (7248, 7257); (8304, 8304); (8308, 8313); (8320, 8329);
   (9312, 9320); (9332, 9340); (9352, 9360); (9450, 9450); (9461, 9469);
   (9471, 9471); (10102, 10110); (10112, 10120); (10122, 10130);
   (42528, 42537); (43216, 43225); (43264, 43273); (43472, 43481);
   (43504, 43513); (43600, 43609); (44016, 44025); (65296, 65305);
   (66720, 66729); (68160, 68163); (68912, 68921); (69216, 69224);
   (69714, 69722); (69734, 69743); (69872, 69881); (69942, 69951);
   (70096, 70105); (70384, 70393); (70736, 70745); (70864, 70873);
   (71248, 71257); (71360, 71369); (71472, 71481); (71904, 71913);
   (72016, 72025); (72784, 72793); (73040, 73049); (73120, 73129);
   (92768, 92777); (92864, 92873); (93008, 93017); (120782, 120831);
   (123200, 123209); (123632, 123641); (125264, 125273); (127232, 127242);
   (130032, 130041)]%N.

Definition isdigit_char : char -> bool := in_ranges digit_ranges.

(** [s.isdigit()]: at least one character, and all of them digits. *)
Definition isdigit (s : pystr) : bool :=
  match s with
  | [] => false
  | _ => forallb isdigit_char s
  end.

(** [len(x)]. *)
Definition len {A} (l : list A) : Z := Z.of_nat (List.length l).

(** [l[i]], negative indices counting from the end. *)
Definition getitem {A} (l : list A) (i : Z) : result A :=
  let j := (if i <? 0 then i + len l else i)%Z in
  if (j <? 0)%Z then inl IndexError
  else match nth_error l (Z.to_nat j) with
       | Some x => inr x
       | None => inl IndexError
       end.

(** A slice bound, clamped the way [l[start:stop]] does. *)
Definition slice_index (n i : Z) : Z :=
  (if i <? 0 then Z.max 0 (i + n) else Z.min i n)%Z.

(** [l[start:stop]]. *)
Definition slice {A} (l : list A) (start stop : Z) : list A :=
  let a := slice_index (len l) start in
  let b := slice_index (len l) stop in
  firstn (Z.to_nat (b - a)) (skipn (Z.to_nat a) l).

(** [enumerate(l, start)]. *)
Fixpoint enumerate {A} (l : list A) (start : Z) : list (Z * A) :=
  match l with
  | [] => []
  | x :: l' => (start, x) :: enumerate l' (start + 1)
  end.

(** [s.startswith(p)]. *)
Fixpoint startswith (s p : pystr) {struct p} : bool :=
  match p, s with
  | [], _ => true
  | _ :: _, [] => false
  | a :: p', b :: s' => (a =? b)%N && startswith s' p'
  end.

(** [sub in s]. *)
Fixpoint contains (sub s : pystr) : bool :=
  startswith s sub ||
  match s with
  | [] => false
  | _ :: s' => contains sub s'
  end.

(** The leftmost occurrence of [sub] in [s]: what is before and after it. *)
Fixpoint partition (sub s : pystr) : option (pystr * pystr) :=
  if startswith s sub then Some ([], skipn (List.length sub) s)
  else match s with
       | [] => None
       | c :: s' =>
           match partition sub s' with
           | Some (b, a) => Some (c :: b, a)
           | None => None
           end
       end.

(** [s.split(sep)] for a non-empty [sep]: cut at the non-overlapping
    occurrences of [sep], left to right.  Every cut consumes at least one
    character, so [length s] rounds are enough. *)
Fixpoint split_rounds (n : nat) (sep s : pystr) : list pystr :=
  match n with
  | O => [s]
  | S n' =>
      match partition sep s with
      | None => [s]
      | Some (b, a) => b :: split_rounds n' sep a
      end
  end.

Definition split_sep (sep s : pystr) : result (list pystr) :=
  match sep with
  | [] => inl ValueError
  | _ => inr (split_rounds (List.length s) sep s)
  end.

Fixpoint dropwhile {A} (f : A -> bool) (l : list A) : list A :=
  match l with
  | [] => []
  | x :: l' => if f x then dropwhile f l' else l
  end.

Fixpoint takewhile {A} (f : A -> bool) (l : list A) : list A :=
  match l with
  | [] => []
  | x :: l' => if f x then x :: takewhile f l' else []
  end.

(** [s.split()]: the maximal runs of non-whitespace characters. *)
Fixpoint split_ws_from (cur : pystr) (s : pystr) : list pystr :=
  match s with
  | [] => match cur with [] => [] | _ => [rev cur] end
  | c :: s' =>
      if isspace_char c then
        match cur with
        | [] => split_ws_from [] s'
        | _ => rev cur :: split_ws_from [] s'
        end
      else split_ws_from (c :: cur) s'
  end.

Definition split_ws (s : pystr) : list pystr := split_ws_from [] s.

(** [s.strip()]. *)
Definition strip (s : pystr) : pystr :=
  rev (dropwhile isspace_char (rev (dropwhile isspace_char s))).

(** [s == ""]. *)
Definition is_empty (s : pystr) : bool :=
  match s with [] => true | _ => false end.

(** [f.readlines()] on the decoded text of the file, newlines already
    translated to ["\n"]: every line keeps its terminating newline. *)
Fixpoint readlines_from (cur : pystr) (text : pystr) : list pystr :=
  match text with
  | [] => match cur with [] => [] | _ => [rev cur] end
  | c :: text' =>
      if (c =? nl)%N then rev (c :: cur) :: readlines_from [] text'
      else readlines_from (c :: cur) text'
  end.

Definition readlines (text : pystr) : list pystr := readlines_from [] text.

End Py.

Import Py.

(* ===================================================================== *)
(** ** Validators *)
(* ===================================================================== *)

(** The second component of a validator's result.  The source builds it
    from [None], an [int], a list of [str], a list of pairs of [str], or the
    tuple [(None, False)]. *)
Inductive hint :=
| HNone
| HInt (n : Z)
| HStrs (l : list pystr)
| HPairs (l : list (pystr * pystr))
| HNoNumber.

Definition outcome_of_rule := result (bool * hint).

Definition bind_result {A B} (r : result A) (k : A -> result B) : result B :=
  match r with
  | inl e => inl e
  | inr a => k a
  end.

Declare Scope result_scope.
Delimit Scope result_scope with result.
Notation "x <- c ;; k" := (bind_result c (fun x => k))
  (at level 61, c at next level, right associativity) : result_scope.

Definition has_title_and_body (commit_message : list pystr) : outcome_of_rule :=
  inr ((len commit_message >=? 4)%Z, HNone).

Definition title_within_max_length (commit_message : list pystr)
  : outcome_of_rule :=
  (let max_length := 50%Z in
   title <- getitem commit_message 0 ;;
   if (len title >? max_length)%Z then inr (false, HInt max_length)
   else inr (true, HNone))%result.

Definition has_title_body_separator (commit_message : list pystr)
  : outcome_of_rule :=
  (separator <- getitem commit_message 1 ;;
   inr (is_empty (strip separator), HNone))%result.

Definition has_trailing_line (commit_message : list pystr) : outcome_of_rule :=
  (trailer <- getitem commit_message (-1) ;;
   inr (is_empty (strip trailer), HNone))%result.

(** The [for] loop of [body_within_max_length], with its early return. *)
Fixpoint body_loop (items : list (Z * pystr)) : outcome_of_rule :=
  match items with
  | [] => inr (true, HNone)
  | (line_number, line) :: items' =>
      if (len line >? 72)%Z then inr (false, HInt line_number)
      else body_loop items'
  end.

Definition body_within_max_length (commit_message : list pystr)
  : outcome_of_rule :=
  let body := slice commit_message 2 (-1) in
  body_loop (enumerate body 1).

Definition valid_commit_types : list pystr :=
  [lit "feat"; lit "fix"; lit "refactor"; lit "style";
   lit "docs"; lit "test"; lit "chore"; lit "revert"].

(** The [for] loop of [title_starts_with_commit_type]: [true] when it
    returns from inside the loop. *)
Fixpoint commit_type_loop (title : pystr) (types : list pystr) : bool :=
  match types with
  | [] => false
  | commit_type :: types' =>
      if startswith title (commit_type ++ lit ":") then true
      else commit_type_loop title types'
  end.

Definition title_starts_with_commit_type (commit_message : list pystr)
  : outcome_of_rule :=
  (title <- getitem commit_message 0 ;;
   if commit_type_loop title valid_commit_types then inr (true, HNone)
   else inr (false, HStrs valid_commit_types))%result.

Definition commit_type_require_issue_number (commit_message : list pystr)
  : outcome_of_rule :=
  (title <- getitem commit_message 0 ;;
   if startswith title (lit "feat:") || startswith title (lit "fix:")
   then inr (true, HNone)
   else inr (false, HNone))%result.

Definition valid_issue_tracker_prefixes : list (pystr * pystr) :=
  [(lit "jr:", lit "jira"); (lit "gh:", lit "github");
   (lit "gl:", lit "gitlab"); (lit "bb:", lit "bitbucket");
   (lit "lp:", lit "launchpad")].

(** [title.split(issue_tracker)[1].split()[0]]. *)
Definition issue_number_of (title issue_tracker : pystr) : result pystr :=
  (pieces <- split_sep issue_tracker title ;;
   piece <- getitem pieces 1 ;;
   getitem (split_ws piece) 0)%result.

(** The [for] loop of [title_has_issue_number]; the empty list is the
    fall-through to the final [return]. *)
Fixpoint issue_tracker_loop (title : pystr) (prefixes : list (pystr * pystr))
  : outcome_of_rule :=
  match prefixes with
  | [] => inr (false, HPairs valid_issue_tracker_prefixes)
  | (issue_tracker, _) :: prefixes' =>
      if contains issue_tracker title then
        (issue_number <- issue_number_of title issue_tracker ;;
         if isdigit issue_number then inr (true, HNone)
         else inr (false, HNoNumber))%result
      else issue_tracker_loop title prefixes'
  end.

Definition title_has_issue_number (commit_message : list pystr)
  : outcome_of_rule :=
  (title <- getitem commit_message 0 ;;
   issue_tracker_loop title valid_issue_tracker_prefixes)%result.

(* ===================================================================== *)
(** ** Commit transformer *)
(* ===================================================================== *)

(** [get_commit_message], on the text of the file: the lines of the file,
    without those whose first non-blank character is [#] unless
    [keep_comments]. *)
Definition get_commit_message (text : pystr) (keep_comments : bool)
  : list pystr :=
  let commit_message := readlines text in
  if negb keep_comments then
    filter (fun line => negb (startswith (strip line) (lit "#")))
           commit_message
  else commit_message.

(* ===================================================================== *)
(** ** Linter *)
(* ===================================================================== *)

Inductive rule :=
| HasTitleAndBody
| TitleWithinMaxLength
| HasTitleBodySeparator
| HasTrailingLine
| BodyWithinMaxLength
| TitleStartsWithCommitType
| CommitTypeRequireIssueNumber
| TitleHasIssueNumber.

Inductive Level := OK | INFO | WARNING | ERROR.

(** The text handed to [linter_message]; colours, padding and wrapping are
    left symbolic. *)
Inductive message :=
| Text (s : string)
| Fmt (s : string) (h : hint)
| TrackerList (s : string) (entries : list (pystr * pystr)).

Inductive piece :=
| Linter (m : message) (level : Level)
| Newline.

(** What a run does, in order: validator calls with their results, and
    calls of [print], each argument a concatenation of pieces. *)
Inductive event :=
| Call (r : rule) (res : outcome_of_rule)
| Print (args : list (list piece)).

Inductive outcome (A : Type) :=
| Normal (a : A)
| Return (code : Z)
| Raise (e : exn).
Arguments Normal {A} a.
Arguments Return {A} code.
Arguments Raise {A} e.

Definition M (A : Type) := (list event * outcome A)%type.

Definition ret {A} (a : A) : M A := ([], Normal a).

Definition bind {A B} (m : M A) (k : A -> M B) : M B :=
  match m with
  | (t, Normal a) => let (t', o) := k a in (t ++ t', o)
  | (t, Return c) => (t, Return c)
  | (t, Raise e) => (t, Raise e)
  end.

Definition call (r : rule) (res : outcome_of_rule) : M (bool * hint) :=
  ([Call r res], match res with inl e => Raise e | inr v => Normal v end).

Definition print (args : list (list piece)) : M unit :=
  ([Print args], Normal tt).

Definition return_ {A} (code : Z) : M A := ([], Return code).

Definition lift {A} (r : result A) : M A :=
  ([], match r with inl e => Raise e | inr a => Normal a end).

Declare Scope lint_scope.
Delimit Scope lint_scope with lint.
Notation "x <- c ;; k" := (bind c (fun x => k))
  (at level 61, c at next level, right associativity) : lint_scope.
Notation "' pat <- c ;; k" := (bind c (fun x => match x with pat => k end))
  (at level 61, pat pattern, c at next level, right associativity) : lint_scope.
Notation "c ;; k" := (bind c (fun _ => k))
  (at level 61, right associativity) : lint_scope.

(** [for handle, name in hint]: the pairs the loop binds, or the exception
    the iteration raises. *)
Definition iter_pairs (h : hint) : result (list (pystr * pystr)) :=
  match h with
  | HPairs l => inr l
  | HStrs l =>
      if forallb (fun s => (List.length s =? 2)%nat) l
      then inr (List.map (fun s => (firstn 1 s, skipn 1 s)) l)
      else inl ValueError
  | HNoNumber | HNone | HInt _ => inl TypeError
  end.

(** The body of [lint_commit_message] after the message has been read. *)
Definition lint_lines (commit_message : list pystr) : M unit :=
  ('(flag, hint) <- call HasTitleAndBody (has_title_and_body commit_message) ;;
   (if negb flag then
      print [[Linter (Text "Title and Body are required") ERROR]] ;;
      return_ 1
    else
      print [[Linter (Text "Commit Message has a title and body.") OK]]) ;;

   '(flag, hint) <- call TitleWithinMaxLength
                      (title_within_max_length commit_message) ;;
   (if negb flag then
      print [[Linter (Text "Title is too long:") ERROR];
             [Linter (Fmt "Max Length: " hint) INFO]] ;;
      return_ 1
    else
      print [[Linter (Text "Title is within the maximum length.") OK]]) ;;

   '(flag, hint) <- call HasTitleBodySeparator
                      (has_title_body_separator commit_message) ;;
   (if negb flag then
      print [[Linter
                (Text "A blank line is required between the title and body")
                ERROR]] ;;
      return_ 1
    else
      print [[Linter
                (Text "Commit Message has a blank line between title and body.")
                OK]]) ;;

   '(flag, hint) <- call HasTrailingLine (has_trailing_line commit_message) ;;
   (if negb flag then
      print [[Linter
                (Text "A blank line is required at the end of the commit message")
                ERROR]] ;;
      return_ 1
    else
      print [[Linter (Text "Commit message has a trailing line.") OK]]) ;;

   '(flag, hint) <- call BodyWithinMaxLength
                      (body_within_max_length commit_message) ;;
   (if negb flag then
      print [[Linter (Text "Commit Body lines are too long:") ERROR];
             [Linter (Fmt "Line " hint) INFO]] ;;
      return_ 1
    else
      print [[Linter (Text "Commit Body lines are within the maximum length.")
                OK]]) ;;

   '(flag, hint) <- call TitleStartsWithCommitType
                      (title_starts_with_commit_type commit_message) ;;
   (if negb flag then
      print [[Linter (Text "Title must start with a valid commit type") ERROR];
             [Newline];
             [Linter (Fmt "Valid Commit Types: " hint) INFO]] ;;
      return_ 1
    else
      print [[Linter (Text "Title starts with a valid commit type.") OK]]) ;;

   '(flag, hint) <- call CommitTypeRequireIssueNumber
                      (commit_type_require_issue_number commit_message) ;;
   (if negb flag then
      print [[Linter (Text "Commit type does not require an issue number.")
                INFO]]
    else
      print [[Linter (Text "Commit type requires an issue number checking.....")
                INFO]] ;;
      '(flag, hint) <- call TitleHasIssueNumber
                         (title_has_issue_number commit_message) ;;
      if negb flag then
        let message_hint :=
          match hint with
          | HStrs _ | HPairs _ =>
              Some [Linter (Text "Issue Tracker is not valid.") ERROR; Newline]
          | HNoNumber =>
              Some [Linter
                      (Text "Issue Tracker is valid but no issue number provided.")
                      ERROR; Newline]
          | _ => None
          end in
        tracker_hints <- lift (iter_pairs hint) ;;
        message_hint <- lift (match message_hint with
                              | Some m => inr m
                              | None => inl UnboundLocalError
                              end) ;;
        print [message_hint ++
               [Linter (TrackerList "List of Valid Issue Trackers e.g:"
                                    tracker_hints) INFO]] ;;
        return_ 1
      else
        print [[Linter (Text "Commit Message has a valid issue number.") OK]]) ;;

   return_ 0)%lint.

(** [lint_commit_message], on the text of the file named by [sys.argv[1]]. *)
Definition lint_commit_message (text : pystr) : M unit :=
  lint_lines (get_commit_message text false).

(** The status [sys.exit(main())] ends the process with: the returned
    integer, or [1] after an uncaught exception. *)
Definition exit_status (run : M unit) : Z :=
  match snd run with
  | Return code => code
  | Normal _ => 0
  | Raise _ => 1
  end.

(** The validator calls of a trace, in order. *)
Fixpoint calls (t : list event) : list (rule * outcome_of_rule) :=
  match t with
  | [] => []
  | Call r res :: t' => (r, res) :: calls t'
  | Print _ :: t' => calls t'
  end.

(** The validator behind each rule, and the order the linter runs them in. *)
Definition validator (r : rule) : list pystr -> outcome_of_rule :=
  match r with
  | HasTitleAndBody => has_title_and_body
  | TitleWithinMaxLength => title_within_max_length
  | HasTitleBodySeparator => has_title_body_separator
  | HasTrailingLine => has_trailing_line
  | BodyWithinMaxLength => body_within_max_length
  | TitleStartsWithCommitType => title_starts_with_commit_type
  | CommitTypeRequireIssueNumber => commit_type_require_issue_number
  | TitleHasIssueNumber => title_has_issue_number
  end.

Definition rule_order : list rule :=
  [HasTitleAndBody; TitleWithinMaxLength; HasTitleBodySeparator;
   HasTrailingLine; BodyWithinMaxLength; TitleStartsWithCommitType;
   CommitTypeRequireIssueNumber; TitleHasIssueNumber].

(** A call that stops the linter: the validator raised, or it returned a
    false flag and the linter answers a false flag with [return 1].  The
    flag of [commit_type_require_issue_number] only selects a branch. *)
Definition failed (c : rule * outcome_of_rule) : bool :=
  match c with
  | (_, inl _) => true
  | (CommitTypeRequireIssueNumber, inr _) => false
  | (_, inr (flag, _)) => negb flag
  end.

(** No call follows a failed one. *)
Fixpoint stops_at_failure (cs : list (rule * outcome_of_rule)) : bool :=
  match cs with
  | [] => true
  | c :: cs' =>
      if failed c then match cs' with [] => true | _ => false end
      else stops_at_failure cs'
  end.

(** A run of [n] letters [x]. *)
Definition letters (n : nat) : pystr := repeat 120%N n.

(** The messages of the scenarios, as [get_commit_message] returns them. *)
Definition scenario_A : list pystr :=
  [line "feat: add x"; line ""; line "body line"; line ""].
Definition scenario_B : list pystr :=
  [line "feat: add x gh:42"; line ""; line "body line"; line ""].
Definition scenario_C : list pystr :=
  [line "chore: cleanup"; line ""; line "body"; line ""].
Definition scenario_D : list pystr :=
  [line "feat: add x gh:42"; line ""; line "first body line";
   letters 72 ++ [nl]; line ""].
Definition scenario_E : list pystr :=
  [line "feat: add x jr:abc"; line ""; line "b"; line ""].

(* ===================================================================== *)
(** ** Console utilities and observations on a run *)
(* ===================================================================== *)

(** [s * n]: [n] copies of [s], none when [n] is not positive. *)
Definition str_mul (s : pystr) (n : Z) : pystr :=
  List.concat (repeat s (Z.to_nat n)).

(** [linter_text_padding(text, width, side, symbol)]; the source defaults
    are [width=72], [side=True], [symbol=" "]. *)
Definition linter_text_padding (text : pystr) (width : Z) (side : bool)
           (symbol : pystr) : pystr :=
  if negb side then str_mul symbol (width - len text) ++ text
  else text ++ str_mul symbol (width - len text).

(** A validator result with a true flag. *)
Definition passes (res : outcome_of_rule) : bool :=
  match res with
  | inr (true, _) => true
  | _ => false
  end.

(** The flag of a validator result, [false] when it raised. *)
Definition flag_of (res : outcome_of_rule) : bool :=
  match res with
  | inr (flag, _) => flag
  | inl _ => false
  end.

(** The literal text of a message handed to [linter_message]. *)
Definition literal (m : message) : string :=
  match m with
  | Text s => s
  | Fmt s _ => s
  | TrackerList s _ => s
  end.

Definition printed_piece (p : piece) : list (Level * string) :=
  match p with
  | Linter m level => [(level, literal m)]
  | Newline => []
  end.

(** The levelled messages a run prints, in order. *)
Fixpoint printed (t : list event) : list (Level * string) :=
  match t with
  | [] => []
  | Call _ _ :: t' => printed t'
  | Print args :: t' => flat_map printed_piece (List.concat args) ++ printed t'
  end.

Definition is_error (x : Level * string) : bool :=
  match fst x with
  | ERROR => true
  | _ => false
  end.

(* ===================================================================== *)
(** ** Declarative notions the statements use *)
(* ===================================================================== *)

(** [p] occurs somewhere in [s]. *)
Definition occurs (p s : pystr) : Prop :=
  exists b a, s = b ++ p ++ a.

(** [s] is [b], then [p], then [a], and [p] occurs at no smaller offset. *)
Definition first_occurrence (p s b a : pystr) : Prop :=
  s = b ++ p ++ a /\
  forall b' a', s = b' ++ p ++ a' -> (List.length b <= List.length b')%nat.

(** [seg] is [a] up to its first occurrence of [p], or all of [a] when
    there is none. *)
Definition cut_before (p a seg : pystr) : Prop :=
  (~ occurs p a /\ seg = a) \/ (exists a', first_occurrence p a seg a').

Definition nonspace_char (c : char) : bool := negb (isspace_char c).

(** [tok] is the first maximal run of non-whitespace characters of [s]. *)
Definition first_token (s tok : pystr) : Prop :=
  exists ws rest,
    s = ws ++ tok ++ rest /\
    forallb isspace_char ws = true /\
    tok <> [] /\
    forallb nonspace_char tok = true /\
    match rest with [] => True | c :: _ => isspace_char c = true end.

(** [p] is the first handle of [valid_issue_tracker_prefixes], in the order
    of that list, that occurs in [title]. *)
Definition first_matching_prefix (title p : pystr) : Prop :=
  exists pre name post,
    valid_issue_tracker_prefixes = pre ++ (p, name) :: post /\
    occurs p title /\
    forall q, In q (List.map fst pre) -> ~ occurs q title.

(* ===================================================================== *)
(** ** Facts about the runtime primitives *)
(* ===================================================================== *)

Section StrFacts.

Lemma startswith_app (p t : pystr) : startswith (p ++ t) p = true.
Proof.
  induction p as [|a p IH]; simpl; [reflexivity|].
  now rewrite N.eqb_refl, IH.
Qed.

Lemma startswith_inv (s p : pystr) :
  startswith s p = true -> s = p ++ skipn (List.length p) s.
Proof.
  revert s; induction p as [|a p IH]; intros s H; simpl in *.
  - reflexivity.
  - destruct s as [|b s]; [discriminate|].
    apply andb_prop in H as [Hab Hs].
    apply N.eqb_eq in Hab; subst b.
    simpl. f_equal. now apply IH.
Qed.

Lemma startswith_spec (s p : pystr) :
  startswith s p = true <-> exists t, s = p ++ t.
Proof.
  split.
  - intros H. eexists. now apply startswith_inv.
  - intros [t ->]. apply startswith_app.
Qed.

Lemma startswith_nil_l (p : pystr) : p <> [] -> startswith [] p = false.
Proof. destruct p; [congruence | reflexivity]. Qed.

Lemma contains_unfold (sub s : pystr) :
  contains sub s =
  startswith s sub || match s with [] => false | _ :: s' => contains sub s' end.
Proof. destruct s; reflexivity. Qed.

Lemma partition_unfold (sub s : pystr) :
  partition sub s =
  if startswith s sub then Some ([], skipn (List.length sub) s)
  else match s with
       | [] => None
       | c :: s' =>
           match partition sub s' with
           | Some (b, a) => Some (c :: b, a)
           | None => None
           end
       end.
Proof. destruct s; reflexivity. Qed.

Lemma contains_spec (sub s : pystr) :
  contains sub s = true <-> occurs sub s.
Proof.
  split.
  - induction s as [|c s IH]; simpl; intros H.
    + rewrite orb_false_r in H. apply startswith_inv in H.
      exists [], (skipn (List.length sub) []). exact H.
    + apply orb_prop in H as [H|H].
      * apply startswith_inv in H. exists [], (skipn (List.length sub) (c :: s)).
        exact H.
      * destruct (IH H) as (b & a & ->). exists (c :: b), a. reflexivity.
  - intros (b & a & ->).
    induction b as [|c b IH].
    + rewrite contains_unfold. simpl. now rewrite startswith_app.
    + simpl. rewrite IH. apply orb_true_r.
Qed.

Lemma contains_false (sub s : pystr) :
  contains sub s = false <-> ~ occurs sub s.
Proof.
  rewrite <- contains_spec. destruct (contains sub s); split; intros H;
    congruence.
Qed.

Lemma partition_sound (sub s b a : pystr) :
  partition sub s = Some (b, a) -> first_occurrence sub s b a.
Proof.
  revert b; induction s as [|c s IH]; intros b H.
  - simpl in H. destruct (startswith [] sub) eqn:E; [|discriminate].
    inversion H; subst; clear H. split.
    + apply startswith_inv in E. exact E.
    + intros; simpl; lia.
  - cbn [partition] in H.
    destruct (startswith (c :: s) sub) eqn:E.
    + inversion H; subst; clear H. split.
      * apply startswith_inv in E. exact E.
      * intros; simpl; lia.
    + destruct (partition sub s) as [[b0 a0]|] eqn:P; [|discriminate].
      inversion H; subst; clear H.
      destruct (IH b0 eq_refl) as [Hs Hmin]. split.
      * simpl. now rewrite <- Hs.
      * intros b' a' Hb'. destruct b' as [|c' b'].
        -- simpl in Hb'. rewrite Hb', startswith_app in E. discriminate.
        -- simpl in Hb'. inversion Hb'; subst c'.
           simpl. apply le_n_S. eapply Hmin. eassumption.
Qed.

Lemma partition_complete (sub s : pystr) :
  occurs sub s -> exists b a, partition sub s = Some (b, a).
Proof.
  intros (b & a & ->).
  induction b as [|c b IH].
  - rewrite partition_unfold. simpl. rewrite startswith_app. eauto.
  - cbn [app partition]. destruct (startswith (c :: b ++ sub ++ a) sub);
      [eauto|].
    destruct IH as (b0 & a0 & ->). eauto.
Qed.

Lemma app_inv_length_l (A : Type) (x1 x2 y1 y2 : list A) :
  x1 ++ x2 = y1 ++ y2 -> List.length x1 = List.length y1 ->
  x1 = y1 /\ x2 = y2.
Proof.
  revert y1; induction x1 as [|a x1 IH]; intros [|b y1] E L;
    simpl in *; try discriminate.
  - now split.
  - inversion E; subst. destruct (IH y1) as [-> ->]; auto.
Qed.

Lemma first_occurrence_unique (sub s b1 a1 b2 a2 : pystr) :
  first_occurrence sub s b1 a1 -> first_occurrence sub s b2 a2 ->
  b1 = b2 /\ a1 = a2.
Proof.
  intros [E1 M1] [E2 M2].
  assert (L : List.length b1 = List.length b2).
  { apply Nat.le_antisymm; [eapply M1 | eapply M2]; eassumption. }
  rewrite E1 in E2.
  apply app_inv_length_l in E2 as [-> E2]; [|exact L].
  apply app_inv_head in E2. now subst.
Qed.

Lemma partition_spec (sub s b a : pystr) :
  partition sub s = Some (b, a) <-> first_occurrence sub s b a.
Proof.
  split; [apply partition_sound|].
  intros H.
  destruct (partition_complete sub s) as (b0 & a0 & P).
  { destruct H as [-> _]. now exists b, a. }
  destruct (first_occurrence_unique _ _ _ _ _ _ H (partition_sound _ _ _ _ P))
    as [-> ->].
  exact P.
Qed.

Lemma partition_none (sub s : pystr) :
  partition sub s = None <-> ~ occurs sub s.
Proof.
  split.
  - intros P O. apply partition_complete in O as (b & a & Q). congruence.
  - intros O. destruct (partition sub s) as [[b a]|] eqn:P; [|reflexivity].
    exfalso. apply O. apply partition_sound in P as [-> _]. now exists b, a.
Qed.

End StrFacts.

Section WhileFacts.

Context {A : Type} (f : A -> bool).

Lemma takewhile_dropwhile (l : list A) : takewhile f l ++ dropwhile f l = l.
Proof.
  induction l as [|x l IH]; simpl; [reflexivity|].
  destruct (f x); simpl; [now rewrite IH | reflexivity].
Qed.

Lemma forallb_takewhile (l : list A) : forallb f (takewhile f l) = true.
Proof.
  induction l as [|x l IH]; simpl; [reflexivity|].
  destruct (f x) eqn:E; simpl; [now rewrite E | reflexivity].
Qed.

Lemma dropwhile_head (l : list A) :
  match dropwhile f l with [] => True | x :: _ => f x = false end.
Proof.
  induction l as [|x l IH]; simpl; [exact I|].
  destruct (f x) eqn:E; [exact IH | exact E].
Qed.

Lemma dropwhile_app_all (l1 l2 : list A) :
  forallb f l1 = true -> dropwhile f (l1 ++ l2) = dropwhile f l2.
Proof.
  induction l1 as [|x l1 IH]; simpl; [reflexivity|].
  intros H. apply andb_prop in H as [-> H]. now apply IH.
Qed.

Lemma takewhile_app_all (l1 l2 : list A) :
  forallb f l1 = true ->
  match l2 with [] => True | x :: _ => f x = false end ->
  takewhile f (l1 ++ l2) = l1.
Proof.
  induction l1 as [|x l1 IH]; simpl; intros H1 H2.
  - destruct l2 as [|y l2]; simpl; [reflexivity | now rewrite H2].
  - apply andb_prop in H1 as [-> H1]. f_equal. now apply IH.
Qed.

End WhileFacts.

Section SplitFacts.

Lemma getitem_0 (A : Type) (l : list A) :
  getitem l 0 = match l with [] => inl IndexError | x :: _ => inr x end.
Proof. destruct l; reflexivity. Qed.

Lemma getitem_1 (A : Type) (l : list A) :
  getitem l 1 = match l with _ :: x :: _ => inr x | _ => inl IndexError end.
Proof. destruct l as [|? [|? ?]]; reflexivity. Qed.

Lemma getitem_last (A : Type) (l : list A) (x : A) :
  getitem (l ++ [x]) (-1) = inr x.
Proof.
  unfold getitem, len. change (-1 <? 0)%Z with true. cbv iota.
  rewrite length_app.
  replace (-1 + Z.of_nat (List.length l + List.length [x]))%Z
    with (Z.of_nat (List.length l))
    by (change (List.length [x]) with 1%nat; lia).
  destruct (Z.ltb_spec (Z.of_nat (List.length l)) 0); [lia|].
  rewrite Nat2Z.id, nth_error_app2, Nat.sub_diag by lia. reflexivity.
Qed.

(** The piece [s.split(sep)[1]] once [sep] occurs in [s]. *)
Lemma split_rounds_second (sep s b a : pystr) (n : nat) :
  sep <> [] -> partition sep s = Some (b, a) -> (List.length s <= n)%nat ->
  nth_error (split_rounds n sep s) 1 =
  Some (match partition sep a with Some (b', _) => b' | None => a end).
Proof.
  intros Hsep P Hn.
  pose proof (partition_sound _ _ _ _ P) as [Hs _].
  assert (Hlen : (1 <= List.length sep)%nat).
  { destruct sep; [congruence | simpl; lia]. }
  assert (Hs' : List.length s =
                (List.length b + (List.length sep + List.length a))%nat).
  { rewrite Hs, !length_app. reflexivity. }
  destruct n as [|n]; [lia|].
  simpl. rewrite P. simpl.
  destruct n as [|n]; simpl.
  - assert (a = []) as -> by (destruct a; [reflexivity | simpl in *; lia]).
    rewrite partition_unfold, startswith_nil_l by assumption. reflexivity.
  - destruct (partition sep a) as [[b' a']|]; reflexivity.
Qed.

Lemma cut_before_spec (p a seg : pystr) :
  cut_before p a seg <->
  seg = match partition p a with Some (b', _) => b' | None => a end.
Proof.
  split.
  - intros [[Hno ->] | [a' Hf]].
    + apply partition_none in Hno. now rewrite Hno.
    + apply partition_spec in Hf. now rewrite Hf.
  - intros ->. destruct (partition p a) as [[b' a']|] eqn:P.
    + right. exists a'. now apply partition_sound.
    + left. split; [now apply partition_none | reflexivity].
Qed.

Lemma split_ws_from_acc (cur s : pystr) :
  cur <> [] ->
  hd_error (split_ws_from cur s) = Some (rev cur ++ takewhile nonspace_char s).
Proof.
  revert cur; induction s as [|c s IH]; intros cur Hcur; simpl.
  - destruct cur; [congruence|]. now rewrite app_nil_r.
  - unfold nonspace_char at 1. destruct (isspace_char c); simpl.
    + destruct cur; [congruence|]. now rewrite app_nil_r.
    + rewrite IH by discriminate. simpl. now rewrite <- app_assoc.
Qed.

(** The token [s.split()[0]], when there is one. *)
Lemma split_ws_first (s : pystr) :
  nth_error (split_ws s) 0 =
  match dropwhile isspace_char s with
  | [] => None
  | t => Some (takewhile nonspace_char t)
  end.
Proof.
  unfold split_ws. induction s as [|c s IH]; simpl; [reflexivity|].
  destruct (isspace_char c) eqn:E; [exact IH|].
  pose proof (split_ws_from_acc [c] s) as H.
  destruct (split_ws_from [c] s) as [|t ts]; simpl in *.
  - discriminate H. discriminate.
  - rewrite H by discriminate. unfold nonspace_char at 2. now rewrite E.
Qed.

Lemma first_token_spec (s tok : pystr) :
  first_token s tok <->
  dropwhile isspace_char s <> [] /\
  tok = takewhile nonspace_char (dropwhile isspace_char s).
Proof.
  split.
  - intros (ws & rest & -> & Hws & Hne & Htok & Hrest).
    rewrite dropwhile_app_all by assumption.
    assert (D : dropwhile isspace_char (tok ++ rest) = tok ++ rest).
    { destruct tok as [|t tok]; [congruence|]. simpl in *.
      apply andb_prop in Htok as [Ht _]. unfold nonspace_char in Ht.
      now destruct (isspace_char t). }
    rewrite D. split.
    + destruct tok; [congruence | discriminate].
    + symmetry. apply takewhile_app_all; [assumption|].
      destruct rest as [|c rest]; [exact I|].
      unfold nonspace_char. now rewrite Hrest.
  - intros [Hne ->].
    set (t := dropwhile isspace_char s) in *.
    exists (takewhile isspace_char s), (dropwhile nonspace_char t).
    repeat split.
    + rewrite takewhile_dropwhile. unfold t.
      now rewrite takewhile_dropwhile.
    + apply forallb_takewhile.
    + pose proof (dropwhile_head isspace_char s) as Hh. fold t in Hh.
      destruct t as [|c t']; [congruence|].
      simpl. unfold nonspace_char at 1. rewrite Hh. discriminate.
    + apply forallb_takewhile.
    + pose proof (dropwhile_head nonspace_char t) as Hh.
      destruct (dropwhile nonspace_char t) as [|c r]; [exact I|].
      unfold nonspace_char in Hh. now destruct (isspace_char c).
Qed.

End SplitFacts.

(* ===================================================================== *)
(** ** The validators, one by one *)
(* ===================================================================== *)

Section IssueNumber.

Lemma getitem_nth (A : Type) (l : list A) (i : Z) :
  (0 <= i)%Z ->
  getitem l i = match nth_error l (Z.to_nat i) with
                | Some x => inr x
                | None => inl IndexError
                end.
Proof.
  intros Hi. unfold getitem.
  destruct (Z.ltb_spec i 0); [lia|].
  destruct (Z.ltb_spec i 0); [lia|]. reflexivity.
Qed.

(** What [title.split(p)[1].split()[0]] evaluates to. *)
Lemma issue_number_of_partition (title p b a : pystr) :
  p <> [] -> partition p title = Some (b, a) ->
  issue_number_of title p =
  match dropwhile isspace_char
          (match partition p a with Some (b', _) => b' | None => a end) with
  | [] => inl IndexError
  | t => inr (takewhile nonspace_char t)
  end.
Proof.
  intros Hp P. unfold issue_number_of, split_sep.
  destruct p as [|c p]; [congruence|]. cbn [bind_result].
  rewrite (getitem_nth _ _ 1) by lia.
  change (Z.to_nat 1) with 1%nat.
  rewrite (split_rounds_second _ _ _ _ (List.length title) Hp P) by lia.
  cbn [bind_result].
  rewrite (getitem_nth _ _ 0) by lia.
  change (Z.to_nat 0) with 0%nat.
  rewrite split_ws_first.
  destruct (dropwhile isspace_char _); reflexivity.
Qed.

Lemma catalog_handle_nonempty (p name : pystr) :
  In (p, name) valid_issue_tracker_prefixes -> p <> [].
Proof.
  cbv. intros H.
  repeat (destruct H as [H|H]; [inversion H; discriminate|]).
  contradiction.
Qed.

Lemma issue_tracker_loop_skip (title : pystr) (pre rest : list (pystr * pystr)) :
  (forall q, In q (List.map fst pre) -> ~ occurs q title) ->
  issue_tracker_loop title (pre ++ rest) = issue_tracker_loop title rest.
Proof.
  induction pre as [|[q n] pre IH]; intros H; [reflexivity|].
  cbn [app issue_tracker_loop].
  assert (Hq : contains q title = false).
  { apply contains_false. apply H. now left. }
  rewrite Hq. apply IH. intros q' Hq'. apply H. now right.
Qed.

(** No handle occurs in the title: the loop falls through. *)
Lemma title_has_issue_number_no_prefix (title : pystr) (rest : list pystr) :
  (forall p, In p (List.map fst valid_issue_tracker_prefixes) ->
             ~ occurs p title) ->
  title_has_issue_number (title :: rest) =
  inr (false, HPairs valid_issue_tracker_prefixes).
Proof.
  intros H. unfold title_has_issue_number. rewrite getitem_0.
  cbn [bind_result].
  rewrite <- (app_nil_r valid_issue_tracker_prefixes) at 1.
  now rewrite issue_tracker_loop_skip.
Qed.

(** Some handle occurs: the result is decided by the first one in the
    order of the catalog, at its first occurrence. *)
Lemma title_has_issue_number_prefix
      (title : pystr) (rest : list pystr) (p b a seg : pystr) :
  first_matching_prefix title p ->
  first_occurrence p title b a ->
  cut_before p a seg ->
  title_has_issue_number (title :: rest) =
  match dropwhile isspace_char seg with
  | [] => inl IndexError
  | t => if isdigit (takewhile nonspace_char t) then inr (true, HNone)
         else inr (false, HNoNumber)
  end.
Proof.
  intros (pre & name & post & Hcat & Hocc & Hpre) Hfirst Hcut.
  unfold title_has_issue_number. rewrite getitem_0. cbn [bind_result].
  rewrite Hcat, issue_tracker_loop_skip by assumption.
  cbn [issue_tracker_loop].
  apply contains_spec in Hocc. rewrite Hocc.
  assert (Hp : p <> []).
  { apply catalog_handle_nonempty with name. rewrite Hcat.
    apply in_elt. }
  apply partition_spec in Hfirst. apply cut_before_spec in Hcut.
  rewrite (issue_number_of_partition _ _ _ _ Hp Hfirst). subst seg.
  destruct (dropwhile isspace_char _); reflexivity.
Qed.

Lemma first_match_dec (title : pystr) (l : list (pystr * pystr)) :
  (forall p, In p (List.map fst l) -> ~ occurs p title) \/
  (exists pre p name post,
      l = pre ++ (p, name) :: post /\ occurs p title /\
      forall q, In q (List.map fst pre) -> ~ occurs q title).
Proof.
  induction l as [|[p n] l IH].
  - left. intros p [].
  - destruct (contains p title) eqn:E.
    + right. exists [], p, n, l. repeat split.
      * now apply contains_spec.
      * intros q [].
    + apply contains_false in E. destruct IH as [IH|IH].
      * left. intros q [<-|Hq]; [exact E | now apply IH].
      * right. destruct IH as (pre & q & name & post & -> & Hocc & Hpre).
        exists ((p, n) :: pre), q, name, post. repeat split; [assumption|].
        intros q' [<-|Hq']; [exact E | now apply Hpre].
Qed.

(** Every title is in one of the two situations above. *)
Lemma title_cases (title : pystr) :
  (forall p, In p (List.map fst valid_issue_tracker_prefixes) ->
             ~ occurs p title) \/
  (exists p b a seg,
      first_matching_prefix title p /\ first_occurrence p title b a /\
      cut_before p a seg).
Proof.
  destruct (first_match_dec title valid_issue_tracker_prefixes)
    as [H|(pre & p & name & post & Hcat & Hocc & Hpre)]; [now left|].
  right. destruct (partition_complete _ _ Hocc) as (b & a & P).
  exists p, b, a, (match partition p a with Some (b', _) => b' | None => a end).
  repeat split.
  - now exists pre, name, post.
  - apply partition_sound in P. apply P.
  - apply partition_sound in P. apply P.
  - now apply cut_before_spec.
Qed.

End IssueNumber.

Section BodyFacts.

Lemma len_cons (A : Type) (x : A) (l : list A) : len (x :: l) = (1 + len l)%Z.
Proof. unfold len. simpl List.length. lia. Qed.

Lemma len_nonneg (A : Type) (l : list A) : (0 <= len l)%Z.
Proof. unfold len. lia. Qed.

(** What the loop over [enumerate(body, start)] returns. *)
Lemma body_loop_spec (body : list pystr) (start : Z) :
  match body_loop (enumerate body start) with
  | inr (true, h) =>
      h = HNone /\ Forall (fun l => (len l <= 72)%Z) body
  | inr (false, h) =>
      exists pre l post,
        body = pre ++ l :: post /\
        Forall (fun l => (len l <= 72)%Z) pre /\
        (72 < len l)%Z /\
        h = HInt (start + len pre)
  | inl _ => False
  end.
Proof.
  revert start; induction body as [|x body IH]; intros start; simpl.
  - split; [reflexivity | constructor].
  - rewrite Z.gtb_ltb. destruct (Z.ltb_spec 72 (len x)) as [Hx|Hx].
    + exists [], x, body. repeat split; [constructor | assumption |].
      f_equal. unfold len. simpl. lia.
    + specialize (IH (start + 1)%Z).
      destruct (body_loop (enumerate body (start + 1))) as [e|[[|] h]].
      * contradiction.
      * destruct IH as [-> IH]. split; [reflexivity|]. now constructor.
      * destruct IH as (pre & l & post & -> & Hpre & Hl & ->).
        exists (x :: pre), l, post. repeat split; try assumption.
        -- now constructor.
        -- f_equal. rewrite len_cons. lia.
Qed.

(** [lines[2:-1]] of a message with a title, a separator and a last line. *)
Lemma slice_body (A : Type) (t s tr : A) (body : list A) :
  slice (t :: s :: body ++ [tr]) 2 (-1) = body.
Proof.
  unfold slice, slice_index.
  set (n := len (t :: s :: body ++ [tr])).
  assert (Hn : n = (3 + len body)%Z).
  { unfold n, len. cbn [List.length]. rewrite length_app.
    cbn [List.length]. lia. }
  change (2 <? 0)%Z with false. change (-1 <? 0)%Z with true. cbv iota.
  pose proof (len_nonneg _ body).
  rewrite Z.min_l, Z.max_r by lia.
  change (Z.to_nat 2) with 2%nat. cbn [skipn].
  replace (Z.to_nat (-1 + n - 2)) with (List.length body)
    by (unfold len in *; lia).
  rewrite firstn_app, Nat.sub_diag, firstn_all. simpl. apply app_nil_r.
Qed.

Lemma has_title_and_body_true (msg : list pystr) (h : hint) :
  has_title_and_body msg = inr (true, h) ->
  exists title sep rest, msg = title :: sep :: rest /\ rest <> [].
Proof.
  unfold has_title_and_body, len. intros H.
  destruct msg as [|t [|s [|b [|tr rest]]]]; simpl in H; try discriminate.
  exists t, s, (b :: tr :: rest). split; [reflexivity | discriminate].
Qed.

Lemma has_title_and_body_flag (msg : list pystr) :
  has_title_and_body msg =
  inr (negb (Nat.ltb (List.length msg) 4), HNone).
Proof.
  unfold has_title_and_body, len. f_equal. f_equal.
  rewrite Z.geb_leb.
  destruct (Z.leb_spec 4 (Z.of_nat (List.length msg)));
    destruct (Nat.ltb_spec (List.length msg) 4); simpl; try reflexivity; lia.
Qed.

Lemma gate_on_title (title : pystr) (rest : list pystr) :
  commit_type_require_issue_number (title :: rest) =
  inr (startswith title (lit "feat:") || startswith title (lit "fix:"),
       HNone).
Proof.
  unfold commit_type_require_issue_number. rewrite getitem_0.
  cbn [bind_result].
  destruct (startswith title (lit "feat:") || startswith title (lit "fix:"));
    reflexivity.
Qed.

End BodyFacts.

(* ===================================================================== *)
(** ** The shape of every run of the linter *)
(* ===================================================================== *)

Section Runs.

(** The values [title_has_issue_number] can produce. *)
Lemma title_has_issue_number_values (msg : list pystr) :
  title_has_issue_number msg = inl IndexError \/
  title_has_issue_number msg = inr (true, HNone) \/
  title_has_issue_number msg = inr (false, HPairs valid_issue_tracker_prefixes) \/
  title_has_issue_number msg = inr (false, HNoNumber).
Proof.
  destruct msg as [|title rest]; [now left|].
  destruct (title_cases title) as [H|(p & b & a & seg & Hp & Hf & Hc)].
  - right; right; left. now apply title_has_issue_number_no_prefix.
  - rewrite (title_has_issue_number_prefix title rest p b a seg Hp Hf Hc).
    destruct (dropwhile isspace_char seg); [now left|].
    destruct (isdigit _); auto.
Qed.

(** A run calls the validators of an initial segment of [rule_order], each
    on the message; it stops at the first failed call, and then the exit
    status is [1]; a run without a failed call returns [0] after the seventh
    or the eighth validator, according to the flag of the seventh. *)
Definition run_shape (msg : list pystr) (n : nat) : Prop :=
  let run := lint_lines msg in
  let cs := calls (fst run) in
  cs = List.map (fun r => (r, validator r msg)) (firstn n rule_order) /\
  stops_at_failure cs = true /\
  exit_status run = (if existsb failed cs then 1 else 0)%Z /\
  (existsb failed cs = false ->
   snd run = Return 0 /\ (n = 7 \/ n = 8)%nat) /\
  (n = 7%nat ->
   exists h, validator CommitTypeRequireIssueNumber msg = inr (false, h) /\
             snd run = Return 0) /\
  (n = 8%nat ->
   exists h, validator CommitTypeRequireIssueNumber msg = inr (true, h)) /\
  (1 <= n <= 8)%nat.

Ltac leaf n :=
  exists n; unfold run_shape;
  cbn [List.map firstn rule_order validator];
  repeat match goal with
         | E : _ = ?f ?m |- _ => rewrite <- E; clear E
         end;
  repeat match goal with |- _ /\ _ => split end;
  try reflexivity; try lia;
  try (intros H; cbn in H; discriminate H);
  try (intros _; split; [reflexivity | auto]);
  try (intros _; eexists; try split; reflexivity).

Lemma lint_lines_run (msg : list pystr) : exists n, run_shape msg n.
Proof.
  pose proof (title_has_issue_number_values msg) as V8.
  assert (G : forall h, has_title_and_body msg = inr (true, h) ->
              forall e, commit_type_require_issue_number msg <> inl e).
  { intros h H e. apply has_title_and_body_true in H
      as (title & sep & rest & -> & _).
    rewrite gate_on_title. discriminate. }
  unfold run_shape, lint_lines.
  remember (has_title_and_body msg) as r1 eqn:E1.
  remember (title_within_max_length msg) as r2 eqn:E2.
  remember (has_title_body_separator msg) as r3 eqn:E3.
  remember (has_trailing_line msg) as r4 eqn:E4.
  remember (body_within_max_length msg) as r5 eqn:E5.
  remember (title_starts_with_commit_type msg) as r6 eqn:E6.
  remember (commit_type_require_issue_number msg) as r7 eqn:E7.
  remember (title_has_issue_number msg) as r8 eqn:E8.
  destruct r1 as [e|[[|] h1]]; [leaf 1%nat| |leaf 1%nat].
  destruct r2 as [e|[[|] h2]]; [leaf 2%nat| |leaf 2%nat].
  destruct r3 as [e|[[|] h3]]; [leaf 3%nat| |leaf 3%nat].
  destruct r4 as [e|[[|] h4]]; [leaf 4%nat| |leaf 4%nat].
  destruct r5 as [e|[[|] h5]]; [leaf 5%nat| |leaf 5%nat].
  destruct r6 as [e|[[|] h6]]; [leaf 6%nat| |leaf 6%nat].
  destruct r7 as [e|[[|] h7]];
    [exfalso; eapply G; reflexivity | | leaf 7%nat].
  destruct V8 as [->|[->|[->| ->]]]; leaf 8%nat.
Qed.

End Runs.

Section RunFacts.

Lemma stops_at_failure_sound (cs pre post : list (rule * outcome_of_rule))
      (c : rule * outcome_of_rule) :
  stops_at_failure cs = true -> cs = pre ++ c :: post ->
  failed c = true -> post = [].
Proof.
  revert cs; induction pre as [|x pre IH]; intros cs Hs -> Hc.
  - simpl in Hs. rewrite Hc in Hs. destruct post; [reflexivity|discriminate].
  - cbn [app stops_at_failure] in Hs. destruct (failed x).
    + destruct pre; discriminate.
    + eapply IH; eauto.
Qed.

Lemma existsb_failed (cs : list (rule * outcome_of_rule)) :
  existsb failed cs = false <-> forall c, In c cs -> failed c = false.
Proof.
  split.
  - intros H c Hc. destruct (failed c) eqn:E; [|reflexivity].
    rewrite <- H. symmetry. apply existsb_exists. eauto.
  - intros H. destruct (existsb failed cs) eqn:E; [|reflexivity].
    apply existsb_exists in E as (c & Hc & Hf). rewrite (H c Hc) in Hf.
    discriminate.
Qed.

Lemma eighth_call (msg : list pystr) (n : nat) (res : outcome_of_rule) :
  In (TitleHasIssueNumber, res)
     (List.map (fun r => (r, validator r msg)) (firstn n rule_order)) ->
  n = 8%nat \/ (8 < n)%nat.
Proof.
  intros H.
  do 8 (destruct n as [|n];
        [simpl in H; intuition discriminate|]).
  destruct n; [now left | right; lia].
Qed.

End RunFacts.

(* ===================================================================== *)
(** ** The claims *)
(* ===================================================================== *)

(** C1.  The linter is fail-fast.  For every message, the validators it
    calls are an initial segment of the fixed order (title and body, title
    length, separator, trailing line, body length, commit type, the
    issue-number gate, then the issue number), each applied to the message;
    a call that fails, by a false flag or by raising, is the last call of the
    run, and the process then exits with status 1; the issue-number validator
    is called only when the gate answered true. *)
Theorem lint_is_fail_fast (msg : list pystr) :
  let run := lint_lines msg in
  let cs := calls (fst run) in
  (exists n,
      cs = List.map (fun r => (r, validator r msg)) (firstn n rule_order)) /\
  (forall pre c post,
      cs = pre ++ c :: post -> failed c = true ->
      post = [] /\ exit_status run = 1%Z) /\
  (forall res,
      In (TitleHasIssueNumber, res) cs ->
      exists h, In (CommitTypeRequireIssueNumber, inr (true, h)) cs).
Proof.
  destruct (lint_lines_run msg)
    as (n & Hcs & Hstop & Hexit & _ & _ & H8 & Hle).
  cbv zeta. repeat split.
  - now exists n.
  - eapply stops_at_failure_sound; eauto.
  - rewrite Hexit.
    assert (E : existsb failed (calls (fst (lint_lines msg))) = true).
    { apply existsb_exists. exists c. split; [|assumption].
      rewrite H. apply in_elt. }
    now rewrite E.
  - intros res Hin. rewrite Hcs in Hin.
    destruct (eighth_call _ _ _ Hin) as [->|Hn]; [|lia].
    destruct (H8 eq_refl) as [h Hh]. exists h.
    rewrite Hcs. cbn [List.map firstn rule_order]. rewrite Hh.
    simpl. auto 10.
Qed.

Lemma lint_is_fail_fast_witness :
  exit_status (lint_lines scenario_A) = 1%Z.
Proof.
  destruct (lint_is_fail_fast scenario_A) as (_ & H & _).
  apply (H (firstn 7 (calls (fst (lint_lines scenario_A))))
           (TitleHasIssueNumber,
            inr (false, HPairs valid_issue_tracker_prefixes))
           []).
  - vm_compute. reflexivity.
  - reflexivity.
Defined.

(** C2.  [has_title_and_body] returns a false flag exactly when the message
    has fewer than four lines, and for every such message the run is: that
    one call, the error line, and [return 1]; no other validator is called. *)
Theorem fewer_than_four_lines_fail_rule_1 (msg : list pystr) :
  ((exists h, has_title_and_body msg = inr (false, h)) <->
   (List.length msg < 4)%nat) /\
  ((List.length msg < 4)%nat ->
   lint_lines msg =
   ([Call HasTitleAndBody (inr (false, HNone));
     Print [[Linter (Text "Title and Body are required") ERROR]]],
    Return 1%Z)).
Proof.
  pose proof (has_title_and_body_flag msg) as Hflag.
  split; [split|].
  - intros [h H]. rewrite Hflag in H.
    destruct (Nat.ltb_spec (List.length msg) 4); [assumption|discriminate].
  - intros H. exists HNone. rewrite Hflag.
    destruct (Nat.ltb_spec (List.length msg) 4); [reflexivity|lia].
  - intros H. unfold lint_lines. rewrite Hflag.
    destruct (Nat.ltb_spec (List.length msg) 4); [reflexivity|lia].
Qed.

Lemma fewer_than_four_lines_fail_rule_1_witness :
  lint_lines [line "feat: add x"; line ""; line "body"] =
  ([Call HasTitleAndBody (inr (false, HNone));
    Print [[Linter (Text "Title and Body are required") ERROR]]],
   Return 1%Z).
Proof.
  apply (fewer_than_four_lines_fail_rule_1
           [line "feat: add x"; line ""; line "body"]).
  simpl. lia.
Defined.

Lemma title_within_max_length_flag (title : pystr) (rest : list pystr) :
  title_within_max_length (title :: rest) =
  if (50 <? len title)%Z then inr (false, HInt 50) else inr (true, HNone).
Proof.
  unfold title_within_max_length. rewrite getitem_0. cbn [bind_result].
  now rewrite Z.gtb_ltb.
Qed.

Lemma lint_lines_title_too_long (title : pystr) (rest : list pystr) :
  (3 <= List.length rest)%nat -> (50 < len title)%Z ->
  lint_lines (title :: rest) =
  ([Call HasTitleAndBody (inr (true, HNone));
    Print [[Linter (Text "Commit Message has a title and body.") OK]];
    Call TitleWithinMaxLength (inr (false, HInt 50));
    Print [[Linter (Text "Title is too long:") ERROR];
           [Linter (Fmt "Max Length: " (HInt 50)) INFO]]],
   Return 1%Z).
Proof.
  intros Hrest Hlen. unfold lint_lines.
  rewrite has_title_and_body_flag, title_within_max_length_flag.
  destruct (Nat.ltb_spec (List.length (title :: rest)) 4);
    [simpl in *; lia|].
  destruct (Z.ltb_spec 50 (len title)); [reflexivity|lia].
Qed.

(** C3.  For a message of at least four lines (rule 1 passes) whose title
    has more than 50 characters, the run stops at [title_within_max_length]
    with the hint 50 and returns 1; a title of at most 50 characters passes
    that validator. *)
Theorem long_title_fails_rule_2 (title : pystr) (rest : list pystr) :
  ((3 <= List.length rest)%nat -> (50 < len title)%Z ->
   lint_lines (title :: rest) =
   ([Call HasTitleAndBody (inr (true, HNone));
     Print [[Linter (Text "Commit Message has a title and body.") OK]];
     Call TitleWithinMaxLength (inr (false, HInt 50));
     Print [[Linter (Text "Title is too long:") ERROR];
            [Linter (Fmt "Max Length: " (HInt 50)) INFO]]],
    Return 1%Z)) /\
  ((len title <= 50)%Z ->
   title_within_max_length (title :: rest) = inr (true, HNone)).
Proof.
  split.
  - apply lint_lines_title_too_long.
  - intros Hlen. rewrite title_within_max_length_flag.
    destruct (Z.ltb_spec 50 (len title)); [lia|reflexivity].
Qed.

Lemma long_title_fails_rule_2_witness :
  snd (lint_lines [letters 51; line ""; line "body"; line ""])
  = Return 1%Z /\
  title_within_max_length [letters 50] = inr (true, HNone).
Proof.
  split.
  - destruct (long_title_fails_rule_2
                (letters 51) [line ""; line "body"; line ""]) as [H _].
    rewrite H.
    + reflexivity.
    + simpl. lia.
    + vm_compute. reflexivity.
  - apply (long_title_fails_rule_2 (letters 50) []).
    vm_compute. discriminate.
Defined.

Section BodyLoop.

Let within (l : pystr) : Prop := (len l <= 72)%Z.

Lemma body_loop_pass (body : list pystr) (start : Z) :
  Forall within body -> body_loop (enumerate body start) = inr (true, HNone).
Proof.
  intros H; revert start; induction H as [|x body Hx _ IH]; intros start.
  - reflexivity.
  - simpl. rewrite Z.gtb_ltb.
    destruct (Z.ltb_spec 72 (len x)); [unfold within in Hx; lia | apply IH].
Qed.

Lemma body_loop_fail (pre post : list pystr) (l : pystr) (start : Z) :
  Forall within pre -> (72 < len l)%Z ->
  body_loop (enumerate (pre ++ l :: post) start) =
  inr (false, HInt (start + len pre)).
Proof.
  intros H Hl; revert start; induction H as [|x pre Hx _ IH]; intros start.
  - simpl. rewrite Z.gtb_ltb.
    destruct (Z.ltb_spec 72 (len l)); [|lia].
    do 3 f_equal. unfold len. simpl. lia.
  - simpl. rewrite Z.gtb_ltb.
    destruct (Z.ltb_spec 72 (len x)); [unfold within in Hx; lia|].
    rewrite IH. do 3 f_equal. rewrite len_cons. lia.
Qed.

End BodyLoop.

Lemma body_within_max_length_first_offender_body (msg : list pystr) :
  (body_within_max_length msg = inr (true, HNone) <->
   Forall (fun l : pystr => (len l <= 72)%Z) (slice msg 2 (-1))) /\
  (forall e, body_within_max_length msg <> inl e).
Proof.
  pose proof (body_loop_spec (slice msg 2 (-1)) 1) as Hspec.
  change (body_loop (enumerate (slice msg 2 (-1)) 1))
    with (body_within_max_length msg) in Hspec.
  split; [split|].
  - intros H. rewrite H in Hspec. apply Hspec.
  - intros H. now apply body_loop_pass.
  - intros e H. rewrite H in Hspec. exact Hspec.
Qed.

(** C7.  [body_within_max_length] never raises.  It returns a true flag if
    and only if every line of [lines[2:-1]] has at most 72 characters, and
    the false flag with hint [k] if and only if the [k]-th line of that slice,
    counting from 1, is the first one longer than 72.  For a message on
    which the first four validators pass and whose slice starts with a line
    within the limit followed by a line of 73 characters, the run stops at
    this validator with hint 2 and returns 1.  The slice of a message made of
    a title, a separator, body lines and a last line is those body lines. *)
Theorem body_within_max_length_first_offender (msg : list pystr) :
  let body := slice msg 2 (-1) in
  let within := fun l : pystr => (len l <= 72)%Z in
  (body_within_max_length msg = inr (true, HNone) <-> Forall within body) /\
  (forall h,
      body_within_max_length msg = inr (false, h) <->
      exists pre l post,
        body = pre ++ l :: post /\ Forall within pre /\ (72 < len l)%Z /\
        h = HInt (1 + len pre)) /\
  (forall e, body_within_max_length msg <> inl e) /\
  (forall b1 b2 more,
      has_title_and_body msg = inr (true, HNone) ->
      title_within_max_length msg = inr (true, HNone) ->
      has_title_body_separator msg = inr (true, HNone) ->
      has_trailing_line msg = inr (true, HNone) ->
      body = b1 :: b2 :: more -> (len b1 <= 72)%Z -> len b2 = 73%Z ->
      calls (fst (lint_lines msg)) =
        [(HasTitleAndBody, inr (true, HNone));
         (TitleWithinMaxLength, inr (true, HNone));
         (HasTitleBodySeparator, inr (true, HNone));
         (HasTrailingLine, inr (true, HNone));
         (BodyWithinMaxLength, inr (false, HInt 2))] /\
      snd (lint_lines msg) = Return 1%Z) /\
  (forall (t s tr : pystr) (lines : list pystr),
      slice (t :: s :: lines ++ [tr]) 2 (-1) = lines).
Proof.
  intros body within.
  pose proof (body_loop_spec body 1) as Hspec.
  change (body_loop (enumerate body 1)) with (body_within_max_length msg)
    in Hspec.
  assert (Hfail : forall pre l post,
             body = pre ++ l :: post -> Forall within pre -> (72 < len l)%Z ->
             body_within_max_length msg = inr (false, HInt (1 + len pre))).
  { intros pre l post Hb Hpre Hl. unfold body_within_max_length.
    fold body. rewrite Hb. now apply body_loop_fail. }
  split; [|split; [|split; [|split]]].
  - split.
    + intros H. rewrite H in Hspec. apply Hspec.
    + intros H. now apply body_loop_pass.
  - intros h. split.
    + intros H. rewrite H in Hspec. exact Hspec.
    + intros (pre & l & post & Hb & Hpre & Hl & ->). eapply Hfail; eauto.
  - intros e H. rewrite H in Hspec. exact Hspec.
  - intros b1 b2 more H1 H2 H3 H4 Hb Hb1 Hb2.
    assert (H5 : body_within_max_length msg = inr (false, HInt 2)).
    { apply (Hfail [b1] b2 more); [assumption | | lia].
      constructor; [assumption | constructor]. }
    unfold lint_lines. rewrite H1, H2, H3, H4, H5. split; reflexivity.
  - intros. apply slice_body.
Qed.

Lemma body_within_max_length_first_offender_witness :
  calls (fst (lint_lines scenario_D)) =
    [(HasTitleAndBody, inr (true, HNone));
     (TitleWithinMaxLength, inr (true, HNone));
     (HasTitleBodySeparator, inr (true, HNone));
     (HasTrailingLine, inr (true, HNone));
     (BodyWithinMaxLength, inr (false, HInt 2))] /\
  snd (lint_lines scenario_D) = Return 1%Z.
Proof.
  destruct (body_within_max_length_first_offender scenario_D)
    as (_ & _ & _ & H & _).
  apply (H (line "first body line") (letters 72 ++ [nl]) []);
    vm_compute; try reflexivity; discriminate.
Defined.

Lemma in_map_firstn (A B : Type) (f : A -> B) (n : nat) (l : list A) (y : B) :
  In y (List.map f (firstn n l)) -> In y (List.map f l).
Proof.
  revert l; induction n as [|n IH]; intros [|x l] H; simpl in *; auto.
  - contradiction.
  - destruct H as [H|H]; [now left | right; now apply IH].
Qed.

Lemma seventh_call (msg : list pystr) (n : nat) (res : outcome_of_rule) :
  In (CommitTypeRequireIssueNumber, res)
     (List.map (fun r => (r, validator r msg)) (firstn n rule_order)) ->
  (n = 7 \/ n = 8 \/ 8 < n)%nat /\
  res = commit_type_require_issue_number msg.
Proof.
  intros H.
  do 7 (destruct n as [|n]; [simpl in H; intuition discriminate|]).
  split.
  - destruct n as [|[|n]]; lia.
  - assert (Hin : In (CommitTypeRequireIssueNumber, res)
                     (List.map (fun r => (r, validator r msg)) rule_order)).
    { eapply in_map_firstn. exact H. }
    simpl in Hin. intuition (try discriminate). now inversion H0.
Qed.

Section Reader.

Lemma readlines_from_line (cur s text : pystr) :
  ~ In nl s ->
  readlines_from cur (s ++ nl :: text) =
  (rev cur ++ s ++ [nl]) :: readlines_from [] text.
Proof.
  revert cur; induction s as [|c s IH]; intros cur Hs.
  - cbn [app readlines_from]. now rewrite N.eqb_refl.
  - cbn [app readlines_from].
    destruct (N.eqb_spec c nl) as [->|Hc]; [exfalso; apply Hs; now left|].
    rewrite IH by (intros H; apply Hs; now right).
    cbn [rev]. now rewrite <- app_assoc.
Qed.

(** No character of the file is lost by [readlines]. *)
Lemma readlines_from_concat (cur text : pystr) :
  List.concat (readlines_from cur text) = rev cur ++ text.
Proof.
  revert cur; induction text as [|c text IH]; intros cur; simpl.
  - destruct cur as [|x cur]; simpl; now rewrite ?app_nil_r.
  - destruct (c =? nl)%N; simpl; rewrite IH; simpl;
      now rewrite <- app_assoc.
Qed.

Lemma len_line (s : pystr) : len (s ++ [nl]) = (Z.of_nat (List.length s) + 1)%Z.
Proof. unfold len. rewrite length_app. simpl. lia. Qed.

End Reader.

(** C10.  [readlines] keeps the newline that ends a line and loses no
    character, and [get_commit_message] only drops whole lines, so the length
    checks count the newline.  A title of 50 characters followed by a newline
    fails [title_within_max_length] with hint 50, and the run of a message of
    at least four lines with such a title stops there; such a title passes
    exactly when it has at most 49 characters before the newline.  A line of
    the body slice with 72 characters before its newline makes
    [body_within_max_length] fail, and when every line of the slice ends with
    a newline the validator passes exactly when each has at most 71
    characters before it. *)
Theorem lengths_count_the_newline :
  (forall s text : pystr,
      ~ In nl s -> readlines (s ++ nl :: text) = (s ++ [nl]) :: readlines text) /\
  (forall text : pystr, List.concat (readlines text) = text) /\
  (forall (text l : pystr),
      In l (get_commit_message text false) -> In l (readlines text)) /\
  (forall (s : pystr) (rest : list pystr),
      List.length s = 50%nat ->
      title_within_max_length ((s ++ [nl]) :: rest) = inr (false, HInt 50)) /\
  (forall (s : pystr) (rest : list pystr),
      title_within_max_length ((s ++ [nl]) :: rest) = inr (true, HNone) <->
      (List.length s <= 49)%nat) /\
  (forall (s : pystr) (rest : list pystr),
      List.length s = 50%nat -> (3 <= List.length rest)%nat ->
      calls (fst (lint_lines ((s ++ [nl]) :: rest))) =
        [(HasTitleAndBody, inr (true, HNone));
         (TitleWithinMaxLength, inr (false, HInt 50))] /\
      snd (lint_lines ((s ++ [nl]) :: rest)) = Return 1%Z) /\
  (forall (msg : list pystr) (s : pystr),
      In (s ++ [nl]) (slice msg 2 (-1)) -> List.length s = 72%nat ->
      exists k, body_within_max_length msg = inr (false, HInt k)) /\
  (forall msg : list pystr,
      (forall l, In l (slice msg 2 (-1)) -> exists s, l = s ++ [nl]) ->
      (body_within_max_length msg = inr (true, HNone) <->
       forall s, In (s ++ [nl]) (slice msg 2 (-1)) ->
                 (List.length s <= 71)%nat)).
Proof.
  split; [|split; [|split; [|split; [|split; [|split; [|split]]]]]].
  - intros s text Hs. unfold readlines.
    now rewrite readlines_from_line.
  - intros text. unfold readlines. now rewrite readlines_from_concat.
  - intros text l. unfold get_commit_message. cbn [negb].
    intros H. apply filter_In in H. apply H.
  - intros s rest Hs. rewrite title_within_max_length_flag, len_line.
    destruct (Z.ltb_spec 50 (Z.of_nat (List.length s) + 1)); [reflexivity|lia].
  - intros s rest. rewrite title_within_max_length_flag, len_line.
    destruct (Z.ltb_spec 50 (Z.of_nat (List.length s) + 1)); split;
      intros H'; try discriminate; try reflexivity; lia.
  - intros s rest Hs Hrest.
    rewrite lint_lines_title_too_long by (rewrite ?len_line; lia).
    split; reflexivity.
  - intros msg s Hin Hs.
    pose proof (body_loop_spec (slice msg 2 (-1)) 1) as Hspec.
    change (body_loop (enumerate (slice msg 2 (-1)) 1))
      with (body_within_max_length msg) in Hspec.
    destruct (body_within_max_length msg) as [e|[[|] h]].
    + contradiction.
    + destruct Hspec as [_ Hall]. rewrite Forall_forall in Hall.
      specialize (Hall _ Hin). rewrite len_line in Hall. lia.
    + destruct Hspec as (pre & l & post & _ & _ & _ & ->). eauto.
  - intros msg Hnl.
    destruct (body_within_max_length_first_offender_body msg) as [Hiff _].
    rewrite Hiff, Forall_forall. split.
    + intros H s Hin. specialize (H _ Hin). rewrite len_line in H. lia.
    + intros H l Hin. destruct (Hnl l Hin) as [s ->].
      rewrite len_line. specialize (H s Hin). lia.
Qed.

Lemma lengths_count_the_newline_witness :
  title_within_max_length [letters 50 ++ [nl]] = inr (false, HInt 50) /\
  (exists k,
      body_within_max_length scenario_D = inr (false, HInt k)).
Proof.
  destruct lengths_count_the_newline as (_ & _ & _ & Ht & _ & _ & Hb & _).
  split.
  - apply (Ht (letters 50) []). reflexivity.
  - apply (Hb scenario_D (letters 72)).
    + vm_compute. auto.
    + reflexivity.
Defined.

Section Tokens.

Lemma first_token_unique (s tok tok' : pystr) :
  first_token s tok -> first_token s tok' -> tok = tok'.
Proof.
  intros H H'. apply first_token_spec in H as [_ ->].
  apply first_token_spec in H' as [_ ->]. reflexivity.
Qed.

Lemma first_token_exists (s : pystr) :
  dropwhile isspace_char s <> [] ->
  first_token s (takewhile nonspace_char (dropwhile isspace_char s)).
Proof. intros H. apply first_token_spec. now split. Qed.

Lemma no_first_token (s tok : pystr) :
  dropwhile isspace_char s = [] -> ~ first_token s tok.
Proof. intros H F. apply first_token_spec in F as [F _]. congruence. Qed.

(** The result of [title_has_issue_number] in terms of the first token of
    the text that follows the handle. *)
Lemma title_has_issue_number_token
      (title : pystr) (rest : list pystr) (p b a seg : pystr) :
  first_matching_prefix title p ->
  first_occurrence p title b a ->
  cut_before p a seg ->
  (forall flag,
      (exists h, title_has_issue_number (title :: rest) = inr (flag, h)) <->
      exists tok, first_token seg tok /\ isdigit tok = flag) /\
  (title_has_issue_number (title :: rest) = inl IndexError <->
   forall tok, ~ first_token seg tok) /\
  (forall flag h,
      title_has_issue_number (title :: rest) = inr (flag, h) ->
      h = if flag then HNone else HNoNumber).
Proof.
  intros Hp Hf Hc.
  rewrite (title_has_issue_number_prefix title rest p b a seg Hp Hf Hc).
  destruct (dropwhile isspace_char seg) as [|c t] eqn:D.
  - repeat split.
    + intros [h H]. discriminate.
    + intros [tok [F _]]. now apply no_first_token in F.
    + intros _ tok. now apply no_first_token.
    + discriminate.
  - assert (F : first_token seg (takewhile nonspace_char (c :: t))).
    { rewrite <- D. apply first_token_exists. rewrite D. discriminate. }
    destruct (isdigit (takewhile nonspace_char (c :: t))) eqn:E.
    + repeat split.
      * intros [h H]. inversion H; subst. eauto.
      * intros (tok & F' & <-). rewrite (first_token_unique _ _ _ F' F), E.
        eauto.
      * discriminate.
      * intros H. exfalso. eapply H; eauto.
      * intros flag h H. now inversion H.
    + repeat split.
      * intros [h H]. inversion H; subst. eauto.
      * intros (tok & F' & <-). rewrite (first_token_unique _ _ _ F' F), E.
        eauto.
      * discriminate.
      * intros H. exfalso. eapply H; eauto.
      * intros flag h H. now inversion H.
Qed.

End Tokens.

Section Handles.

Lemma jr_first (title : pystr) :
  contains (lit "jr:") title = true ->
  first_matching_prefix title (lit "jr:").
Proof.
  intros H. exists [], (lit "jira"), (tl valid_issue_tracker_prefixes).
  repeat split.
  - now apply contains_spec.
  - intros q [].
Qed.

Lemma gh_first (title : pystr) :
  contains (lit "jr:") title = false ->
  contains (lit "gh:") title = true ->
  first_matching_prefix title (lit "gh:").
Proof.
  intros Hjr H.
  exists [(lit "jr:", lit "jira")], (lit "github"),
         (tl (tl valid_issue_tracker_prefixes)).
  repeat split.
  - now apply contains_spec.
  - intros q [<-|[]]. now apply contains_false.
Qed.

Lemma cut_before_all (p a : pystr) :
  contains p a = false -> cut_before p a a.
Proof. intros H. left. split; [now apply contains_false | reflexivity]. Qed.

End Handles.

(** C4 (as amended).  [title_has_issue_number] searches the title for the
    handles [jr:], [gh:], [gl:], [bb:], [lp:] in that order, as substrings
    anywhere in the title; when none occurs it fails with the catalog.
    Otherwise only the first handle of that order that occurs is considered:
    the validator passes if and only if the text after the first occurrence
    of that handle, cut at the next occurrence of the same handle when there
    is one, has a first maximal run of non-whitespace characters (leading
    whitespace skipped) and that run satisfies [str.isdigit].  A handle in
    the middle of a word counts, and handles later in the catalog are ignored
    even when present. *)
Theorem title_has_issue_number_first_prefix :
  (forall (title : pystr) (rest : list pystr),
      (forall p, In p (List.map fst valid_issue_tracker_prefixes) ->
                 ~ occurs p title) ->
      title_has_issue_number (title :: rest) =
      inr (false, HPairs valid_issue_tracker_prefixes)) /\
  (forall (title : pystr) (rest : list pystr) (p b a seg : pystr),
      first_matching_prefix title p ->
      first_occurrence p title b a ->
      cut_before p a seg ->
      (title_has_issue_number (title :: rest) = inr (true, HNone) <->
       exists tok, first_token seg tok /\ isdigit tok = true)) /\
  title_has_issue_number [line "feat: debugh:7"] = inr (true, HNone) /\
  title_has_issue_number [line "fix: gh:x jr:1"] = inr (true, HNone) /\
  title_has_issue_number [line "fix: gh:1 jr:x"] = inr (false, HNoNumber).
Proof.
  split; [exact title_has_issue_number_no_prefix|].
  split; [|repeat split; vm_compute; reflexivity].
  intros title rest p b a seg Hp Hf Hc.
  destruct (title_has_issue_number_token title rest p b a seg Hp Hf Hc)
    as (Hflag & _ & Hhint).
  rewrite <- (Hflag true). split.
  - intros H. eauto.
  - intros [h H]. rewrite H. f_equal. f_equal. exact (Hhint _ _ H).
Qed.

Lemma title_has_issue_number_first_prefix_witness :
  exists tok, first_token (line "42") tok /\ isdigit tok = true.
Proof.
  destruct title_has_issue_number_first_prefix as (_ & H & _).
  apply (H (line "feat: add x gh:42") [] (lit "gh:")
           (lit "feat: add x ") (line "42") (line "42")).
  - apply gh_first; vm_compute; reflexivity.
  - apply partition_spec. vm_compute. reflexivity.
  - apply cut_before_all. vm_compute. reflexivity.
  - vm_compute. reflexivity.
Defined.

(** C4 (as stated) fails.  In the title [feat: jr:12jr:ab] the first handle
    of the catalog that occurs is [jr:], first at offset 6; the run of
    non-whitespace characters that immediately follows it is [12jr:ab], which
    is not made of digits, and yet the validator passes.  In
    [feat: x jr: 42] that run is empty and the validator passes; in
    [feat: x jr: abc] it is empty too and the validator fails. *)
Lemma digits_right_after_prefix_counterexample :
  (first_matching_prefix (line "feat: jr:12jr:ab") (lit "jr:") /\
   first_occurrence (lit "jr:") (line "feat: jr:12jr:ab")
                    (lit "feat: ") (line "12jr:ab") /\
   takewhile nonspace_char (line "12jr:ab") = lit "12jr:ab" /\
   forallb isdigit_char (lit "12jr:ab") = false /\
   ~ (title_has_issue_number
        [line "feat: jr:12jr:ab"; line ""; line "b"; line ""]
      = inr (true, HNone) <->
      isdigit (takewhile nonspace_char (line "12jr:ab")) = true)) /\
  (first_occurrence (lit "jr:") (line "feat: x jr: 42")
                    (lit "feat: x ") (line " 42") /\
   takewhile nonspace_char (line " 42") = [] /\
   title_has_issue_number [line "feat: x jr: 42"; line ""; line "b"; line ""]
   = inr (true, HNone)) /\
  (first_occurrence (lit "jr:") (line "feat: x jr: abc")
                    (lit "feat: x ") (line " abc") /\
   takewhile nonspace_char (line " abc") = [] /\
   title_has_issue_number [line "feat: x jr: abc"; line ""; line "b"; line ""]
   = inr (false, HNoNumber)).
Proof.
  split; [|split].
  - split; [apply jr_first; vm_compute; reflexivity|].
    split; [apply partition_spec; vm_compute; reflexivity|].
    split; [vm_compute; reflexivity|].
    split; [vm_compute; reflexivity|].
    intros [H _].
    assert (E : isdigit (takewhile nonspace_char (line "12jr:ab")) = false)
      by (vm_compute; reflexivity).
    rewrite H in E; [discriminate | vm_compute; reflexivity].
  - split; [apply partition_spec; vm_compute; reflexivity|].
    split; vm_compute; reflexivity.
  - split; [apply partition_spec; vm_compute; reflexivity|].
    split; vm_compute; reflexivity.
Qed.

(** C5.  On the message whose title is [feat: add x jr:] the handle [jr:] is
    found and nothing but the newline follows it: [split()] returns the empty
    list, indexing it raises [IndexError], and the exception leaves
    [title_has_issue_number] and the linter, where the docstring announces
    the result [(False, (None, False))]. *)
Theorem prefix_without_number_raises :
  get_commit_message
    (line "feat: add x jr:" ++ line "" ++ line "b" ++ line "") false =
    [line "feat: add x jr:"; line ""; line "b"; line ""] /\
  split_ws [nl] = [] /\
  title_has_issue_number [line "feat: add x jr:"; line ""; line "b"; line ""]
  = inl IndexError /\
  snd (lint_lines [line "feat: add x jr:"; line ""; line "b"; line ""])
  = Raise IndexError /\
  snd (lint_commit_message
         (line "feat: add x jr:" ++ line "" ++ line "b" ++ line ""))
  = Raise IndexError.
Proof. repeat split; vm_compute; reflexivity. Qed.

(** C6 (as amended).  A failure of [title_has_issue_number] carries one of
    two hints.  It is the catalog [(jr:, jira), (gh:, github), (gl:, gitlab),
    (bb:, bitbucket), (lp:, launchpad)] exactly when no handle occurs in the
    title, as in scenario A, whose run stops at this validator and returns 1.
    It is the marker [(None, False)] exactly when a handle occurs and the
    text after the first occurrence of the first such handle, cut at its next
    occurrence, has a first whitespace-delimited token that is not made of
    digits; on the message of scenario E, title [feat: add x jr:abc], the
    validator returns the marker and is the last validator called. *)
Theorem title_has_issue_number_hints :
  (forall (msg : list pystr) (h : hint),
      title_has_issue_number msg = inr (false, h) ->
      h = HPairs valid_issue_tracker_prefixes \/ h = HNoNumber) /\
  (forall (title : pystr) (rest : list pystr),
      title_has_issue_number (title :: rest)
      = inr (false, HPairs valid_issue_tracker_prefixes) <->
      forall p, In p (List.map fst valid_issue_tracker_prefixes) ->
                ~ occurs p title) /\
  (forall (title : pystr) (rest : list pystr) (p b a seg : pystr),
      first_matching_prefix title p ->
      first_occurrence p title b a ->
      cut_before p a seg ->
      (title_has_issue_number (title :: rest) = inr (false, HNoNumber) <->
       exists tok, first_token seg tok /\ isdigit tok = false)) /\
  valid_issue_tracker_prefixes =
    [(lit "jr:", lit "jira"); (lit "gh:", lit "github");
     (lit "gl:", lit "gitlab"); (lit "bb:", lit "bitbucket");
     (lit "lp:", lit "launchpad")] /\
  (calls (fst (lint_lines scenario_A)) =
     [(HasTitleAndBody, inr (true, HNone));
      (TitleWithinMaxLength, inr (true, HNone));
      (HasTitleBodySeparator, inr (true, HNone));
      (HasTrailingLine, inr (true, HNone));
      (BodyWithinMaxLength, inr (true, HNone));
      (TitleStartsWithCommitType, inr (true, HNone));
      (CommitTypeRequireIssueNumber, inr (true, HNone));
      (TitleHasIssueNumber,
       inr (false, HPairs valid_issue_tracker_prefixes))] /\
   snd (lint_lines scenario_A) = Return 1%Z) /\
  (title_has_issue_number scenario_E = inr (false, HNoNumber) /\
   last (calls (fst (lint_lines scenario_E))) (HasTitleAndBody, inl IndexError)
   = (TitleHasIssueNumber, inr (false, HNoNumber))).
Proof.
  split; [|split; [|split; [|split; [reflexivity|]]]].
  - intros msg h H.
    destruct (title_has_issue_number_values msg) as [E|[E|[E|E]]];
      rewrite E in H; inversion H; auto.
  - intros title rest. split; [|apply title_has_issue_number_no_prefix].
    intros H.
    destruct (title_cases title) as [Hno|(p & b & a & seg & Hp & Hf & Hc)];
      [exact Hno|].
    destruct (title_has_issue_number_token title rest p b a seg Hp Hf Hc)
      as (_ & _ & Hhint).
    specialize (Hhint _ _ H). discriminate.
  - intros title rest p b a seg Hp Hf Hc.
    destruct (title_has_issue_number_token title rest p b a seg Hp Hf Hc)
      as (Hflag & _ & Hhint).
    rewrite <- (Hflag false). split.
    + intros H. eauto.
    + intros [h H]. rewrite H. f_equal. f_equal. exact (Hhint _ _ H).
  - repeat split; vm_compute; reflexivity.
Qed.

Lemma title_has_issue_number_hints_witness :
  exists tok, first_token (line "abc") tok /\ isdigit tok = false.
Proof.
  destruct title_has_issue_number_hints as (_ & _ & H & _).
  apply (H (line "feat: add x jr:abc") [line ""; line "b"; line ""]
           (lit "jr:") (lit "feat: add x ") (line "abc") (line "abc")).
  - apply jr_first. vm_compute. reflexivity.
  - apply partition_spec. vm_compute. reflexivity.
  - apply cut_before_all. vm_compute. reflexivity.
  - vm_compute. reflexivity.
Defined.

(** C6 (as stated) fails.  In the title [feat: jr:12jr:ab] the handle [jr:]
    matches, first at offset 6, and the token that follows it, [12jr:ab], is
    not made of digits; yet the validator does not fail with the marker: it
    passes. *)
Lemma marker_after_prefix_counterexample :
  first_matching_prefix (line "feat: jr:12jr:ab") (lit "jr:") /\
  first_occurrence (lit "jr:") (line "feat: jr:12jr:ab")
                   (lit "feat: ") (line "12jr:ab") /\
  takewhile nonspace_char (line "12jr:ab") = lit "12jr:ab" /\
  isdigit (lit "12jr:ab") = false /\
  forallb isdigit_char (lit "12jr:ab") = false /\
  title_has_issue_number [line "feat: jr:12jr:ab"; line ""; line "b"; line ""]
  = inr (true, HNone) /\
  title_has_issue_number [line "feat: jr:12jr:ab"; line ""; line "b"; line ""]
  <> inr (false, HNoNumber).
Proof.
  split; [apply jr_first; vm_compute; reflexivity|].
  split; [apply partition_spec; vm_compute; reflexivity|].
  split; [vm_compute; reflexivity|].
  split; [vm_compute; reflexivity|].
  split; [vm_compute; reflexivity|].
  split; [vm_compute; reflexivity|].
  vm_compute. discriminate.
Qed.


(* ===================================================================== *)
(** ** Further properties of the validators *)
(* ===================================================================== *)

Section Blank.

Lemma dropwhile_nil_iff (A : Type) (f : A -> bool) (l : list A) :
  dropwhile f l = [] <-> forallb f l = true.
Proof.
  induction l as [|x l IH]; simpl; [tauto|].
  destruct (f x); simpl; [exact IH|]. split; discriminate.
Qed.

Lemma forallb_snoc (A : Type) (f : A -> bool) (l : list A) (x : A) :
  forallb f (l ++ [x]) = forallb f l && f x.
Proof. rewrite forallb_app. simpl. now rewrite andb_true_r. Qed.

(** [s.strip() == ""] holds exactly when [s] is made of whitespace. *)
Lemma strip_is_empty (s : pystr) :
  is_empty (strip s) = forallb isspace_char s.
Proof.
  unfold strip.
  destruct (forallb isspace_char s) eqn:E.
  - apply dropwhile_nil_iff in E. rewrite E. reflexivity.
  - destruct (dropwhile isspace_char s) as [|c t] eqn:D.
    + apply dropwhile_nil_iff in D. congruence.
    + pose proof (dropwhile_head isspace_char s) as Hc. rewrite D in Hc.
      destruct (dropwhile isspace_char (rev (c :: t))) as [|c' t'] eqn:D'.
      * apply dropwhile_nil_iff in D'. cbn [rev] in D'.
        rewrite forallb_snoc, Hc, andb_false_r in D'. discriminate.
      * destruct (rev (c' :: t')) eqn:R; [|reflexivity].
        apply (f_equal (@List.length _)) in R. rewrite length_rev in R.
        discriminate.
Qed.

Lemma has_trailing_line_last (init : list pystr) (l : pystr) :
  has_trailing_line (init ++ [l]) = inr (forallb isspace_char l, HNone).
Proof.
  unfold has_trailing_line. rewrite getitem_last. cbn [bind_result].
  now rewrite strip_is_empty.
Qed.

Lemma has_title_body_separator_second (title sep : pystr) (rest : list pystr) :
  has_title_body_separator (title :: sep :: rest) =
  inr (forallb isspace_char sep, HNone).
Proof.
  unfold has_title_body_separator. rewrite getitem_1. cbn [bind_result].
  now rewrite strip_is_empty.
Qed.

Lemma commit_type_loop_spec (title : pystr) (types : list pystr) :
  commit_type_loop title types = true <->
  exists t, In t types /\ startswith title (t ++ lit ":") = true.
Proof.
  induction types as [|t types IH]; simpl.
  - split; [discriminate | intros (t & [] & _)].
  - destruct (startswith title (t ++ lit ":")) eqn:E.
    + split; [eauto | reflexivity].
    + rewrite IH. split.
      * intros (t' & Hin & H). eauto.
      * intros (t' & [<-|Hin] & H); [congruence | eauto].
Qed.

Lemma title_starts_with_commit_type_flag (title : pystr) (rest : list pystr) :
  title_starts_with_commit_type (title :: rest) =
  if commit_type_loop title valid_commit_types then inr (true, HNone)
  else inr (false, HStrs valid_commit_types).
Proof.
  unfold title_starts_with_commit_type. rewrite getitem_0. reflexivity.
Qed.

End Blank.

(** X1.  [has_title_body_separator] raises [IndexError] on a message of
    fewer than two lines; otherwise its flag says whether the second line
    consists of whitespace only (a line of blanks and tabs is a separator),
    and its hint is [None]. *)
Theorem has_title_body_separator_blank (msg : list pystr) :
  has_title_body_separator msg =
  match msg with
  | _ :: sep :: _ => inr (forallb isspace_char sep, HNone)
  | _ => inl IndexError
  end.
Proof.
  destruct msg as [|title [|sep rest]]; try reflexivity.
  apply has_title_body_separator_second.
Qed.

(** X2.  [has_trailing_line] raises [IndexError] on the empty message;
    otherwise its flag says whether the last line consists of whitespace
    only, and its hint is [None]. *)
Theorem has_trailing_line_blank (msg : list pystr) :
  has_trailing_line msg =
  match rev msg with
  | last_line :: _ => inr (forallb isspace_char last_line, HNone)
  | [] => inl IndexError
  end.
Proof.
  destruct (rev msg) as [|l init] eqn:R.
  - apply (f_equal (@rev _)) in R. rewrite rev_involutive in R. subst msg.
    reflexivity.
  - apply (f_equal (@rev _)) in R. rewrite rev_involutive in R. subst msg.
    cbn [rev]. apply has_trailing_line_last.
Qed.

(** X3.  [title_starts_with_commit_type] passes exactly when the title is
    one of feat, fix, refactor, style, docs, test, chore, revert followed by
    a colon and then anything; otherwise it fails with the list of those
    eight types as hint. *)
Theorem title_starts_with_commit_type_spec (title : pystr) (rest : list pystr) :
  (title_starts_with_commit_type (title :: rest) = inr (true, HNone) <->
   exists t tail, In t valid_commit_types /\ title = t ++ lit ":" ++ tail) /\
  (title_starts_with_commit_type (title :: rest) = inr (true, HNone) \/
   title_starts_with_commit_type (title :: rest)
   = inr (false, HStrs valid_commit_types)).
Proof.
  rewrite title_starts_with_commit_type_flag.
  destruct (commit_type_loop title valid_commit_types) eqn:E.
  - split; [|now left]. split; [|reflexivity]. intros _.
    apply commit_type_loop_spec in E as (t & Hin & H).
    apply startswith_spec in H as [tail ->].
    exists t, tail. split; [assumption|]. now rewrite <- app_assoc.
  - split; [|now right]. split; [discriminate|].
    intros (t & tail & Hin & ->).
    assert (commit_type_loop (t ++ lit ":" ++ tail) valid_commit_types = true)
      as E'; [|congruence].
    apply commit_type_loop_spec. exists t. split; [assumption|].
    rewrite app_assoc. apply startswith_app.
Qed.

Lemma title_starts_with_commit_type_spec_witness :
  title_starts_with_commit_type [line "docs: readme"] = inr (true, HNone).
Proof.
  apply (title_starts_with_commit_type_spec (line "docs: readme") []).
  exists (lit "docs"), (line " readme"). split.
  - simpl. auto 10.
  - reflexivity.
Defined.

(** X4.  A commit type followed by a scope in parentheses, as in
    [feat(parser): ...], is not accepted: for each of the eight types the
    validator fails on every title that starts with the type and an opening
    parenthesis. *)
Theorem scoped_commit_type_is_rejected
        (t tail : pystr) (rest : list pystr) :
  In t valid_commit_types ->
  title_starts_with_commit_type ((t ++ lit "(" ++ tail) :: rest) =
  inr (false, HStrs valid_commit_types).
Proof.
  intros Hin. rewrite title_starts_with_commit_type_flag.
  assert (E : commit_type_loop (t ++ lit "(" ++ tail) valid_commit_types
              = false); [|now rewrite E].
  simpl in Hin.
  repeat (destruct Hin as [<-|Hin]; [reflexivity|]).
  contradiction.
Qed.

Lemma scoped_commit_type_is_rejected_witness :
  title_starts_with_commit_type [line "feat(parser): add x gh:42"] =
  inr (false, HStrs valid_commit_types).
Proof.
  apply (scoped_commit_type_is_rejected
           (lit "feat") (line "parser): add x gh:42") []).
  simpl. auto.
Defined.

Lemma validators_do_not_raise (msg : list pystr) :
  (2 <= List.length msg)%nat ->
  forall r, In r (firstn 7 rule_order) ->
            exists flag h, validator r msg = inr (flag, h).
Proof.
  intros Hlen r Hr.
  destruct msg as [|title [|sep rest]]; try (simpl in Hlen; lia).
  simpl in Hr.
  destruct Hr as [<-|[<-|[<-|[<-|[<-|[<-|[<-|[]]]]]]]]; cbn [validator].
  - unfold has_title_and_body. eauto.
  - rewrite title_within_max_length_flag. destruct (50 <? _)%Z; eauto.
  - rewrite has_title_body_separator_second. eauto.
  - destruct (@exists_last _ (title :: sep :: rest)) as (init & l & ->);
      [discriminate|].
    rewrite has_trailing_line_last. eauto.
  - destruct (body_within_max_length (title :: sep :: rest))
      as [e|[flag h]] eqn:E; [|eauto].
    exfalso.
    exact (proj2 (body_within_max_length_first_offender_body _) e E).
  - rewrite title_starts_with_commit_type_flag.
    destruct (commit_type_loop _ _); eauto.
  - rewrite gate_on_title. eauto.
Qed.

(** X5.  The positional accesses are guarded by the line count: on a
    message of at least two lines, so on every message that
    [has_title_and_body] accepts, none of the first seven validators raises;
    [has_title_and_body] and [body_within_max_length] never raise at all;
    on the empty message the other six raise [IndexError]. *)
Theorem positional_access_is_guarded :
  (forall (msg : list pystr) (r : rule),
      (2 <= List.length msg)%nat -> In r (firstn 7 rule_order) ->
      exists flag h, validator r msg = inr (flag, h)) /\
  (forall (msg : list pystr) (h : hint),
      has_title_and_body msg = inr (true, h) -> (2 <= List.length msg)%nat) /\
  (forall (msg : list pystr) (e : exn),
      has_title_and_body msg <> inl e /\ body_within_max_length msg <> inl e) /\
  (forall r,
      In r [TitleWithinMaxLength; HasTitleBodySeparator; HasTrailingLine;
            TitleStartsWithCommitType; CommitTypeRequireIssueNumber;
            TitleHasIssueNumber] ->
      validator r [] = inl IndexError).
Proof.
  split; [|split; [|split]].
  - intros msg r Hlen Hr. now apply validators_do_not_raise.
  - intros msg h H. apply has_title_and_body_true in H
      as (title & sep & rest & -> & _). simpl. lia.
  - intros msg e. split; [discriminate|].
    apply body_within_max_length_first_offender_body.
  - intros r Hr. simpl in Hr.
    repeat (destruct Hr as [<-|Hr]; [reflexivity|]). contradiction.
Qed.

Lemma positional_access_is_guarded_witness :
  exists flag h, validator HasTrailingLine [line "a"; line "b"] = inr (flag, h).
Proof.
  destruct positional_access_is_guarded as (H & _).
  apply (H [line "a"; line "b"] HasTrailingLine).
  - simpl. lia.
  - simpl. auto.
Defined.

(* ===================================================================== *)
(** ** Further properties of the linter *)
(* ===================================================================== *)

Lemma guarded_by_rule_1 (msg : list pystr) (h : hint) :
  has_title_and_body msg = inr (true, h) ->
  (forall e, title_within_max_length msg <> inl e) /\
  (forall e, has_title_body_separator msg <> inl e) /\
  (forall e, has_trailing_line msg <> inl e) /\
  (forall e, body_within_max_length msg <> inl e) /\
  (forall e, title_starts_with_commit_type msg <> inl e) /\
  (forall e, commit_type_require_issue_number msg <> inl e).
Proof.
  intros H.
  assert (Hlen : (2 <= List.length msg)%nat).
  { apply has_title_and_body_true in H as (t & s & rest & -> & _).
    simpl. lia. }
  pose proof (validators_do_not_raise msg Hlen) as NR.
  repeat split; intros e E;
    match goal with
    | E : ?f msg = inl _ |- _ =>
        match f with
        | title_within_max_length =>
            destruct (NR TitleWithinMaxLength) as (fl & h' & E')
        | has_title_body_separator =>
            destruct (NR HasTitleBodySeparator) as (fl & h' & E')
        | has_trailing_line =>
            destruct (NR HasTrailingLine) as (fl & h' & E')
        | body_within_max_length =>
            destruct (NR BodyWithinMaxLength) as (fl & h' & E')
        | title_starts_with_commit_type =>
            destruct (NR TitleStartsWithCommitType) as (fl & h' & E')
        | commit_type_require_issue_number =>
            destruct (NR CommitTypeRequireIssueNumber) as (fl & h' & E')
        end
    end;
    try (simpl; auto 10; fail);
    cbn [validator] in E'; congruence.
Qed.

(** Case analysis on a run: one goal for each way the linter can end. *)
Ltac lint_cases msg tac :=
  pose proof (title_has_issue_number_values msg) as V8;
  pose proof (guarded_by_rule_1 msg) as G;
  unfold lint_lines;
  remember (has_title_and_body msg) as r1 eqn:E1;
  remember (title_within_max_length msg) as r2 eqn:E2;
  remember (has_title_body_separator msg) as r3 eqn:E3;
  remember (has_trailing_line msg) as r4 eqn:E4;
  remember (body_within_max_length msg) as r5 eqn:E5;
  remember (title_starts_with_commit_type msg) as r6 eqn:E6;
  remember (commit_type_require_issue_number msg) as r7 eqn:E7;
  remember (title_has_issue_number msg) as r8 eqn:E8;
  destruct r1 as [lc_e|[[|] lc_h1]];
  [ exfalso; discriminate E1
  | destruct (G lc_h1 eq_refl) as (N2 & N3 & N4 & N5 & N6 & N7);
    destruct r2 as [lc_e|[[|] lc_h2]];
    [ exfalso; eapply N2; reflexivity
    | destruct r3 as [lc_e|[[|] lc_h3]];
      [ exfalso; eapply N3; reflexivity
      | destruct r4 as [lc_e|[[|] lc_h4]];
        [ exfalso; eapply N4; reflexivity
        | destruct r5 as [lc_e|[[|] lc_h5]];
          [ exfalso; eapply N5; reflexivity
          | destruct r6 as [lc_e|[[|] lc_h6]];
            [ exfalso; eapply N6; reflexivity
            | destruct r7 as [lc_e|[[|] lc_h7]];
              [ exfalso; eapply N7; reflexivity
              | destruct V8 as [->|[->|[->| ->]]]; tac
              | tac ]
            | tac ]
          | tac ]
        | tac ]
      | tac ]
    | tac ]
  | tac ].

Lemma first_six_pass (msg : list pystr) :
  (forall r, In r (firstn 6 rule_order) -> passes (validator r msg) = true) <->
  passes (has_title_and_body msg) && passes (title_within_max_length msg) &&
  passes (has_title_body_separator msg) && passes (has_trailing_line msg) &&
  passes (body_within_max_length msg) &&
  passes (title_starts_with_commit_type msg) = true.
Proof.
  split.
  - intros H.
    assert (In6 : forall r, In r [HasTitleAndBody; TitleWithinMaxLength;
                                  HasTitleBodySeparator; HasTrailingLine;
                                  BodyWithinMaxLength;
                                  TitleStartsWithCommitType] ->
                            passes (validator r msg) = true) by exact H.
    pose proof (In6 HasTitleAndBody) as H1.
    pose proof (In6 TitleWithinMaxLength) as H2.
    pose proof (In6 HasTitleBodySeparator) as H3.
    pose proof (In6 HasTrailingLine) as H4.
    pose proof (In6 BodyWithinMaxLength) as H5.
    pose proof (In6 TitleStartsWithCommitType) as H6.
    cbn [validator] in H1, H2, H3, H4, H5, H6.
    rewrite H1, H2, H3, H4, H5, H6 by (simpl; auto 10). reflexivity.
  - intros H r Hr.
    do 5 (apply andb_prop in H as [H ?]).
    simpl in Hr.
    repeat (destruct Hr as [<-|Hr]; [cbn [validator]; assumption|]).
    contradiction.
Qed.

(** X6.  Once [get_commit_message] has returned the lines, the rest of
    [lint_commit_message] ([lint_lines], from the call of
    [has_title_and_body] on) ends with an uncaught exception in exactly two
    situations, both inside the issue-number check of a [feat:] or [fix:]
    message that passed the first six validators: [title_has_issue_number]
    raised [IndexError], or it returned the marker [(None, False)] and the
    loop that formats the hints raised [TypeError] on it.  Failures of
    reading the file are outside [lint_lines]. *)
Theorem linter_raises_only_in_issue_number_check
        (msg : list pystr) (e : exn) :
  snd (lint_lines msg) = Raise e <->
  (forall r, In r (firstn 6 rule_order) -> passes (validator r msg) = true) /\
  flag_of (commit_type_require_issue_number msg) = true /\
  ((title_has_issue_number msg = inl IndexError /\ e = IndexError) \/
   (title_has_issue_number msg = inr (false, HNoNumber) /\ e = TypeError)).
Proof.
  rewrite first_six_pass.
  lint_cases msg ltac:(cbn; intuition congruence).
Qed.

Lemma linter_raises_only_in_issue_number_check_witness :
  snd (lint_lines scenario_E) = Raise TypeError.
Proof.
  apply (linter_raises_only_in_issue_number_check scenario_E TypeError).
  split; [|split].
  - intros r Hr. simpl in Hr.
    repeat (destruct Hr as [<-|Hr]; [vm_compute; reflexivity|]).
    contradiction.
  - vm_compute. reflexivity.
  - right. split; [vm_compute|]; reflexivity.
Defined.

(** X7.  The error line "Issue Tracker is valid but no issue number
    provided." is never printed, whatever the message: the branch that
    builds it is always followed by the loop that raises. *)
Theorem number_missing_message_is_never_printed (msg : list pystr) :
  ~ In (ERROR, "Issue Tracker is valid but no issue number provided."%string)
       (printed (fst (lint_lines msg))).
Proof.
  lint_cases msg ltac:(cbn; intuition discriminate).
Qed.

(** X8.  The linter returns only 0 or 1.  A run that returns 1 prints
    exactly one message of level ERROR; a run that returns 0 or raises
    prints none. *)
Theorem one_error_line_per_failure (msg : list pystr) :
  let run := lint_lines msg in
  (snd run = Return 0%Z \/ snd run = Return 1%Z \/ exists e, snd run = Raise e) /\
  List.length (filter is_error (printed (fst run))) =
  match snd run with
  | Return 1%Z => 1%nat
  | _ => 0%nat
  end.
Proof.
  lint_cases msg ltac:(cbn; split; [eauto 6 | reflexivity]).
Qed.

Lemma lint_lines_returns_zero (msg : list pystr) :
  snd (lint_lines msg) = Return 0%Z <->
  passes (has_title_and_body msg) && passes (title_within_max_length msg) &&
  passes (has_title_body_separator msg) && passes (has_trailing_line msg) &&
  passes (body_within_max_length msg) &&
  passes (title_starts_with_commit_type msg) = true /\
  (flag_of (commit_type_require_issue_number msg) = false \/
   passes (title_has_issue_number msg) = true).
Proof.
  lint_cases msg ltac:(cbn; intuition congruence).
Qed.

Section Acceptance.

Variables (title sep trailer : pystr) (body : list pystr).

Let msg : list pystr := title :: sep :: body ++ [trailer].

Lemma accept_rule_1 : passes (has_title_and_body msg) = true <-> body <> [].
Proof.
  unfold msg. rewrite has_title_and_body_flag. cbn [passes List.length].
  rewrite length_app. cbn [List.length].
  destruct body as [|b body']; cbn [List.length].
  - split; [discriminate | congruence].
  - destruct (Nat.ltb_spec (S (S (S (List.length body') + 1))) 4);
      [lia|]. split; [discriminate | reflexivity].
Qed.

Lemma accept_rule_2 :
  passes (title_within_max_length msg) = true <-> (len title <= 50)%Z.
Proof.
  unfold msg. rewrite title_within_max_length_flag.
  destruct (Z.ltb_spec 50 (len title)); cbn [passes];
    split; try discriminate; try reflexivity; lia.
Qed.

Lemma accept_rule_3 :
  passes (has_title_body_separator msg) = forallb isspace_char sep.
Proof.
  unfold msg. rewrite has_title_body_separator_second.
  now destruct (forallb isspace_char sep).
Qed.

Lemma accept_rule_4 :
  passes (has_trailing_line msg) = forallb isspace_char trailer.
Proof.
  unfold msg.
  change (title :: sep :: body ++ [trailer])
    with ((title :: sep :: body) ++ [trailer]).
  rewrite has_trailing_line_last.
  now destruct (forallb isspace_char trailer).
Qed.

Lemma accept_rule_5 :
  passes (body_within_max_length msg) = true <->
  Forall (fun l : pystr => (len l <= 72)%Z) body.
Proof.
  destruct (body_within_max_length_first_offender_body msg) as [Hiff _].
  unfold msg in Hiff at 2. rewrite slice_body in Hiff. rewrite <- Hiff.
  pose proof (body_loop_spec (slice msg 2 (-1)) 1) as Hspec.
  change (body_loop (enumerate (slice msg 2 (-1)) 1))
    with (body_within_max_length msg) in Hspec.
  destruct (body_within_max_length msg) as [e|[[|] h]]; cbn [passes].
  - split; discriminate.
  - destruct Hspec as [-> _]. tauto.
  - split; discriminate.
Qed.

Lemma accept_rule_6 :
  passes (title_starts_with_commit_type msg) = true <->
  exists t tail, In t valid_commit_types /\ title = t ++ lit ":" ++ tail.
Proof.
  unfold msg. rewrite title_starts_with_commit_type_flag.
  destruct (commit_type_loop title valid_commit_types) eqn:E; cbn [passes].
  - split; [|reflexivity]. intros _.
    apply commit_type_loop_spec in E as (t & Hin & H).
    apply startswith_spec in H as [tail ->].
    exists t, tail. split; [assumption|]. now rewrite <- app_assoc.
  - split; [discriminate|]. intros (t & tail & Hin & Ht).
    assert (commit_type_loop title valid_commit_types = true)
      as E'; [|congruence].
    apply commit_type_loop_spec. exists t. split; [assumption|].
    rewrite Ht, app_assoc. apply startswith_app.
Qed.

Lemma accept_rule_7 :
  flag_of (commit_type_require_issue_number msg) =
  startswith title (lit "feat:") || startswith title (lit "fix:").
Proof. unfold msg. now rewrite gate_on_title. Qed.

Lemma accept_rule_8 :
  passes (title_has_issue_number msg) = true <->
  title_has_issue_number [title] = inr (true, HNone).
Proof.
  assert (E : title_has_issue_number msg = title_has_issue_number [title]).
  { unfold msg, title_has_issue_number. now rewrite !getitem_0. }
  rewrite E.
  destruct (title_has_issue_number_values [title]) as [V|[V|[V|V]]];
    rewrite V; cbn [passes]; split; try discriminate; reflexivity.
Qed.

End Acceptance.

(** X9.  The messages the linter accepts.  A run returns 0 only on a
    message made of a title, a second line, body lines and a last line; and
    on such a message it returns 0 exactly when there is at least one body
    line, the title has at most 50 characters, the second and the last line
    are whitespace only, every body line has at most 72 characters, the title
    is a valid commit type followed by a colon, and, when the title starts
    with [feat:] or [fix:], [title_has_issue_number] passes on the title. *)
Theorem linter_accepts_iff :
  (forall msg : list pystr,
      snd (lint_lines msg) = Return 0%Z ->
      exists title sep body trailer, msg = title :: sep :: body ++ [trailer]) /\
  (forall (title sep trailer : pystr) (body : list pystr),
      snd (lint_lines (title :: sep :: body ++ [trailer])) = Return 0%Z <->
      body <> [] /\
      (len title <= 50)%Z /\
      forallb isspace_char sep = true /\
      forallb isspace_char trailer = true /\
      Forall (fun l : pystr => (len l <= 72)%Z) body /\
      (exists t tail, In t valid_commit_types /\ title = t ++ lit ":" ++ tail) /\
      (startswith title (lit "feat:") || startswith title (lit "fix:") = true ->
       title_has_issue_number [title] = inr (true, HNone))).
Proof.
  split.
  - intros msg H. apply lint_lines_returns_zero in H as [H _].
    do 5 (apply andb_prop in H as [H _]).
    destruct (has_title_and_body msg) as [e|[[|] h]] eqn:E;
      try discriminate H.
    apply has_title_and_body_true in E as (title & sep & rest & -> & Hrest).
    destruct (exists_last Hrest) as (body & trailer & ->).
    now exists title, sep, body, trailer.
  - intros title sep trailer body.
    rewrite lint_lines_returns_zero, !andb_true_iff.
    rewrite (accept_rule_1 title sep trailer body),
      (accept_rule_2 title sep trailer body),
      (accept_rule_3 title sep trailer body),
      (accept_rule_4 title sep trailer body),
      (accept_rule_5 title sep trailer body),
      (accept_rule_6 title sep trailer body),
      (accept_rule_7 title sep trailer body),
      (accept_rule_8 title sep trailer body).
    destruct (startswith title (lit "feat:") || startswith title (lit "fix:")).
    + intuition congruence.
    + intuition congruence.
Qed.

Lemma linter_accepts_iff_witness :
  snd (lint_lines scenario_C) = Return 0%Z.
Proof.
  destruct linter_accepts_iff as [_ H].
  apply (proj2 (H (line "chore: cleanup") (line "") (line "") [line "body"])).
  split; [discriminate|].
  split; [vm_compute; discriminate|].
  split; [reflexivity|].
  split; [reflexivity|].
  split; [repeat constructor; vm_compute; discriminate|].
  split.
  - exists (lit "chore"), (line " cleanup"). split; [simpl; auto 10|].
    reflexivity.
  - vm_compute. discriminate.
Defined.

(* ===================================================================== *)
(** ** Further properties of the reader *)
(* ===================================================================== *)

Section ReaderFacts.

Lemma readlines_from_cut (cur t after : pystr) :
  readlines_from cur (t ++ nl :: after) =
  readlines_from cur (t ++ [nl]) ++ readlines_from [] after.
Proof.
  revert cur; induction t as [|c t IH]; intros cur; cbn [app readlines_from].
  - rewrite N.eqb_refl. reflexivity.
  - destruct (c =? nl)%N; rewrite IH; reflexivity.
Qed.

(** Reading a text that continues after a complete line. *)
Lemma readlines_app (before after : pystr) :
  before = [] \/ (exists t, before = t ++ [nl]) ->
  readlines (before ++ after) = readlines before ++ readlines after.
Proof.
  intros [->|[t ->]]; [reflexivity|].
  unfold readlines. rewrite <- app_assoc. apply readlines_from_cut.
Qed.

Lemma dropwhile_snoc (A : Type) (f : A -> bool) (l : list A) (x : A) :
  f x = false -> dropwhile f (l ++ [x]) = dropwhile f l ++ [x].
Proof.
  intros Hx. induction l as [|y l IH]; simpl.
  - now rewrite Hx.
  - destruct (f y); [exact IH | reflexivity].
Qed.

(** The first character that [strip] leaves. *)
Lemma strip_head (ws x : pystr) (c : char) :
  forallb isspace_char ws = true -> isspace_char c = false ->
  exists y, strip (ws ++ c :: x) = c :: y.
Proof.
  intros Hws Hc. unfold strip.
  rewrite dropwhile_app_all by assumption.
  cbn [dropwhile]. rewrite Hc. cbn [rev].
  rewrite dropwhile_snoc by assumption.
  rewrite rev_app_distr. cbn [rev app]. eauto.
Qed.

Lemma in_removelast (A : Type) (x : A) (l : list A) :
  In x (removelast l) -> In x l.
Proof.
  induction l as [|y [|z l] IH]; simpl; intros H; auto.
  destruct H as [H|H]; [now left | right; now apply IH].
Qed.

(** Every line that [readlines] returns is non-empty and holds no newline
    before its last character. *)
Lemma readlines_from_shape (text cur : pystr) :
  ~ In nl cur ->
  Forall (fun l => l <> [] /\ ~ In nl (removelast l)) (readlines_from cur text).
Proof.
  revert cur; induction text as [|c text IH]; intros cur Hcur;
    cbn [readlines_from].
  - destruct cur as [|x cur]; constructor; [|constructor]. split.
    + intros H. apply (f_equal (@List.length _)) in H.
      rewrite length_rev in H. discriminate.
    + intros H. apply in_removelast in H. apply -> in_rev in H.
      rewrite rev_involutive in H. contradiction.
  - destruct (N.eqb_spec c nl) as [->|Hc].
    + constructor; [|apply IH; intros []]. cbn [rev]. split.
      * intros H. now apply app_eq_nil in H as [_ H].
      * rewrite removelast_last. intros H. apply -> in_rev in H.
        rewrite rev_involutive in H. contradiction.
    + apply IH. intros [H|H]; [congruence | contradiction].
Qed.

(** A line of [readlines] that is followed by another ends with a
    newline. *)
Lemma readlines_from_terminated (text cur : pystr) (init rest : list pystr)
      (l : pystr) :
  readlines_from cur text = init ++ l :: rest -> rest <> [] ->
  exists s, l = s ++ [nl].
Proof.
  revert cur init; induction text as [|c text IH]; intros cur init H Hrest;
    cbn [readlines_from] in H.
  - destruct cur; destruct init as [|? [|? ?]]; simpl in H;
      try discriminate H; inversion H; subst; exfalso; now apply Hrest.
  - destruct (N.eqb_spec c nl) as [->|Hc].
    + destruct init as [|x init]; inversion H; subst.
      * cbn [rev]. eauto.
      * eapply IH; eauto.
    + eapply IH; eauto.
Qed.

Lemma filter_split (A : Type) (f : A -> bool) (L init rest : list A) (x : A) :
  filter f L = init ++ x :: rest ->
  exists L1 L2, L = L1 ++ x :: L2 /\ filter f L2 = rest.
Proof.
  revert init; induction L as [|y L IH]; intros init H; simpl in H.
  - destruct init; discriminate.
  - destruct (f y).
    + destruct init as [|z init]; inversion H; subst.
      * exists [], L. auto.
      * destruct (IH init H2) as (L1 & L2 & -> & HL2).
        exists (z :: L1), L2. auto.
    + destruct (IH init H) as (L1 & L2 & -> & HL2).
      exists (y :: L1), L2. auto.
Qed.

End ReaderFacts.

(** X10.  Comment lines are invisible to the linter.  A complete line whose
    first character after leading blanks is [#], inserted at the start of
    the file or after a complete line, changes neither what
    [get_commit_message] returns without [keep_comments] nor the run of the
    linter. *)
Theorem comment_lines_are_invisible (before after ws tail : pystr) :
  before = [] \/ (exists t, before = t ++ [nl]) ->
  forallb isspace_char ws = true -> ~ In nl ws -> ~ In nl tail ->
  get_commit_message (before ++ (ws ++ lit "#" ++ tail ++ [nl]) ++ after) false
  = get_commit_message (before ++ after) false /\
  lint_commit_message (before ++ (ws ++ lit "#" ++ tail ++ [nl]) ++ after)
  = lint_commit_message (before ++ after).
Proof.
  intros Hbefore Hws Hnl_ws Hnl_tail.
  assert (E : get_commit_message
                (before ++ (ws ++ lit "#" ++ tail ++ [nl]) ++ after) false
              = get_commit_message (before ++ after) false).
  { assert (Hc : filter
                   (fun l => negb (startswith (strip l) (lit "#")))
                   [ws ++ lit "#" ++ tail ++ [nl]] = []).
    { cbn [filter].
      destruct (strip_head ws (tail ++ [nl]) 35%N Hws eq_refl) as [y Hy].
      change (ws ++ lit "#" ++ tail ++ [nl]) with (ws ++ 35%N :: tail ++ [nl]).
      unfold pystr, char in *. rewrite Hy. reflexivity. }
    assert (Hr : readlines ((ws ++ lit "#" ++ tail ++ [nl]) ++ after)
                 = [ws ++ lit "#" ++ tail ++ [nl]] ++ readlines after).
    { assert (Ec : (ws ++ lit "#" ++ tail ++ [nl]) ++ after
                   = (ws ++ lit "#" ++ tail) ++ nl :: after)
        by (rewrite <- !app_assoc; reflexivity).
      rewrite Ec. unfold readlines. rewrite readlines_from_line.
      - cbn [rev app]. now rewrite <- !app_assoc.
      - intros H. apply in_app_or in H as [H|H]; [contradiction|].
        apply in_app_or in H as [H|H]; [|contradiction].
        destruct H as [H|[]]. discriminate H. }
    unfold get_commit_message. cbn [negb].
    rewrite (readlines_app before _ Hbefore),
      (readlines_app before after Hbefore), Hr, !filter_app.
    unfold pystr, char in *. rewrite Hc. reflexivity. }
  split; [exact E|].
  unfold lint_commit_message. now rewrite E.
Qed.

Lemma comment_lines_are_invisible_witness :
  get_commit_message
    (line "fix: y" ++ (lit "  " ++ lit "#" ++ lit " note" ++ [nl]) ++ line "")
    false
  = get_commit_message (line "fix: y" ++ line "") false.
Proof.
  apply (comment_lines_are_invisible
           (line "fix: y") (line "") (lit "  ") (lit " note")).
  - right. exists (lit "fix: y"). reflexivity.
  - reflexivity.
  - vm_compute. intuition discriminate.
  - vm_compute. intuition discriminate.
Defined.

(** X11.  The lines [get_commit_message] returns, with or without comments,
    are never empty and hold no newline before their last character; and a
    returned line that is followed by another one ends with a newline. *)
Theorem returned_lines_are_whole_lines
        (text : pystr) (keep_comments : bool) :
  Forall (fun l => l <> [] /\ ~ In nl (removelast l))
         (get_commit_message text keep_comments) /\
  (forall init l rest,
      get_commit_message text keep_comments = init ++ l :: rest ->
      rest <> [] -> exists s, l = s ++ [nl]).
Proof.
  assert (Hshape : Forall (fun l => l <> [] /\ ~ In nl (removelast l))
                          (readlines text))
    by (apply readlines_from_shape; intros []).
  unfold get_commit_message. destruct keep_comments; cbn [negb].
  - split; [exact Hshape|].
    intros init l rest H Hrest.
    exact (readlines_from_terminated text [] init rest l H Hrest).
  - split.
    + rewrite Forall_forall in *. intros l Hl.
      apply filter_In in Hl as [Hl _]. now apply Hshape.
    + intros init l rest H Hrest.
      apply filter_split in H as (L1 & L2 & HL & HL2).
      apply (readlines_from_terminated text [] L1 L2 l HL).
      intros ->. simpl in HL2. congruence.
Qed.

Lemma returned_lines_are_whole_lines_witness :
  exists s, line "fix: y" = s ++ [nl].
Proof.
  destruct (returned_lines_are_whole_lines (line "fix: y" ++ line "") false)
    as [_ H].
  apply (H [] (line "fix: y") [line ""]).
  - vm_compute. reflexivity.
  - discriminate.
Defined.

(* ===================================================================== *)
(** ** Properties of the padding *)
(* ===================================================================== *)

Section Padding.

Lemma length_concat_repeat (A : Type) (s : list A) (k : nat) :
  List.length (List.concat (repeat s k)) = (k * List.length s)%nat.
Proof.
  induction k as [|k IH]; simpl; [reflexivity|].
  now rewrite length_app, IH.
Qed.

Lemma len_str_mul (s : pystr) (n : Z) :
  len (str_mul s n) = (len s * Z.max 0 n)%Z.
Proof.
  unfold len, str_mul. rewrite length_concat_repeat. lia.
Qed.

Lemma str_mul_nonpositive (s : pystr) (n : Z) :
  (n <= 0)%Z -> str_mul s n = [].
Proof.
  intros H. unfold str_mul.
  replace (Z.to_nat n) with 0%nat by lia. reflexivity.
Qed.

Lemma str_mul_empty (n : Z) : str_mul [] n = [].
Proof.
  unfold str_mul. induction (Z.to_nat n) as [|k IH]; simpl; auto.
Qed.

Lemma len_app (A : Type) (l1 l2 : list A) : len (l1 ++ l2) = (len l1 + len l2)%Z.
Proof. unfold len. rewrite length_app. lia. Qed.

Lemma padding_length (text : pystr) (width : Z) (side : bool) (symbol : pystr) :
  len (linter_text_padding text width side symbol) =
  (len text + len symbol * Z.max 0 (width - len text))%Z.
Proof.
  unfold linter_text_padding.
  destruct side; cbn [negb]; rewrite len_app, len_str_mul; lia.
Qed.

End Padding.

(** X12.  The padded text has the length of the text plus one symbol for
    every missing column: with a one-character symbol the result is exactly
    [width] characters long when the text is shorter and as long as the text
    otherwise, on either side. *)
Theorem linter_text_padding_length
        (text : pystr) (width : Z) (side : bool) (symbol : pystr) :
  len (linter_text_padding text width side symbol) =
  (len text + len symbol * Z.max 0 (width - len text))%Z /\
  (len symbol = 1%Z ->
   len (linter_text_padding text width side symbol) = Z.max width (len text)).
Proof.
  split; [apply padding_length|].
  intros H. rewrite padding_length, H. lia.
Qed.

Lemma linter_text_padding_length_witness :
  len (linter_text_padding (lit "for jira -> jr::123") 72 true (lit " "))
  = Z.max 72 (len (lit "for jira -> jr::123")).
Proof.
  destruct (linter_text_padding_length
              (lit "for jira -> jr::123") 72 true (lit " ")) as [_ H].
  apply H. reflexivity.
Defined.

(** X13.  Padding never truncates and is idempotent: a text at least
    [width] long is returned unchanged, and padding a padded text again, with
    the same width, side and symbol, adds nothing. *)
Theorem linter_text_padding_idempotent
        (text : pystr) (width : Z) (side : bool) (symbol : pystr) :
  ((width <= len text)%Z ->
   linter_text_padding text width side symbol = text) /\
  linter_text_padding (linter_text_padding text width side symbol)
                      width side symbol
  = linter_text_padding text width side symbol.
Proof.
  assert (Hid : forall t, (width <= len t)%Z \/ symbol = [] ->
                          linter_text_padding t width side symbol = t).
  { intros t [H| ->]; unfold linter_text_padding.
    - rewrite str_mul_nonpositive by lia.
      destruct side; cbn [negb app]; [apply app_nil_r | reflexivity].
    - rewrite str_mul_empty.
      destruct side; cbn [negb app]; [apply app_nil_r | reflexivity]. }
  split; [intros H; apply Hid; now left|].
  apply Hid.
  destruct symbol as [|c symbol']; [now right | left].
  rewrite padding_length.
  pose proof (len_nonneg _ symbol') as Hs. rewrite len_cons.
  pose proof (len_nonneg _ text). nia.
Qed.

Lemma linter_text_padding_idempotent_witness :
  linter_text_padding (letters 80) 72 true (lit " ") = letters 80.
Proof.
  destruct (linter_text_padding_idempotent (letters 80) 72 true (lit " "))
    as [H _].
  apply H. vm_compute. discriminate.
Defined.

(* ===================================================================== *)
(** ** Titles that pass or fail the issue-number check *)
(* ===================================================================== *)

Section AfterHandle.

Lemma ascii_digit_char (d : char) :
  (48 <= d <= 57)%N -> isdigit_char d = true /\ isspace_char d = false.
Proof.
  intros H. split.
  - unfold isdigit_char, in_ranges, digit_ranges. cbn [existsb fst snd].
    rewrite (proj2 (N.leb_le 48 d)), (proj2 (N.leb_le d 57)) by lia.
    reflexivity.
  - unfold isspace_char, in_ranges, space_ranges. cbn [existsb fst snd].
    repeat match goal with
           | |- context [(?a <=? ?b)%N] =>
               first [ rewrite (proj2 (N.leb_gt a b)) by lia
                     | rewrite (proj2 (N.leb_le a b)) by lia ]
           end.
    reflexivity.
Qed.

(** The first character of every handle of the catalog is a letter. *)
Lemma catalog_handle_head (p name : pystr) :
  In (p, name) valid_issue_tracker_prefixes ->
  exists x p', p = x :: p' /\ isspace_char x = false /\ (57 < x)%N.
Proof.
  cbv [valid_issue_tracker_prefixes In]. intros H.
  repeat (destruct H as [H|H];
          [inversion H; subst; eexists; eexists;
           split; [reflexivity | split; [vm_compute; reflexivity
                                        | vm_compute; reflexivity]]|]).
  contradiction.
Qed.

Lemma first_matching_prefix_in (title p : pystr) :
  first_matching_prefix title p ->
  exists name, In (p, name) valid_issue_tracker_prefixes.
Proof.
  intros (pre & name & post & E & _). exists name. rewrite E. apply in_elt.
Qed.

Lemma partition_cons_other (x c : char) (p' a : pystr) :
  x <> c ->
  partition (x :: p') (c :: a) =
  match partition (x :: p') a with
  | Some (b, a') => Some (c :: b, a')
  | None => None
  end.
Proof.
  intros H. rewrite partition_unfold. cbn [startswith].
  destruct (N.eqb_spec x c); [contradiction | reflexivity].
Qed.

(** The text kept for the token starts with the characters that cannot
    start the handle. *)
Lemma cut_keeps_prefix (x : char) (p' pre a : pystr) :
  ~ In x pre ->
  exists tl,
    match partition (x :: p') (pre ++ a) with
    | Some (b, _) => b
    | None => pre ++ a
    end = pre ++ tl.
Proof.
  induction pre as [|c pre IH]; intros H.
  - cbn [app]. eauto.
  - cbn [app]. rewrite partition_cons_other by (intros ->; apply H; now left).
    destruct IH as [tl IH]; [intros Hin; apply H; now right|].
    destruct (partition (x :: p') (pre ++ a)) as [[b a']|].
    + exists tl. now rewrite IH.
    + exists tl. now rewrite IH.
Qed.

End AfterHandle.

(** X14.  A character that is neither whitespace nor a digit, and not the
    first letter of the handle, right after the first occurrence of the
    handle makes [title_has_issue_number] fail with the marker
    [(None, False)]: so does the form [jr::123], the handle followed by
    [:123], that the printed hints are built from. *)
Theorem non_digit_after_handle_fails
        (title : pystr) (rest : list pystr) (p b a : pystr) (c : char) :
  first_matching_prefix title p ->
  first_occurrence p title b (c :: a) ->
  isspace_char c = false -> isdigit_char c = false ->
  hd_error p <> Some c ->
  title_has_issue_number (title :: rest) = inr (false, HNoNumber).
Proof.
  intros Hp Hf Hsp Hdg Hhd.
  destruct (first_matching_prefix_in _ _ Hp) as [name Hin].
  destruct (catalog_handle_head _ _ Hin) as (x & p' & -> & _ & _).
  assert (Hx : ~ In x [c]).
  { intros [->|[]]. now apply Hhd. }
  destruct (cut_keeps_prefix x p' [c] a Hx) as [tl Hseg].
  cbn [app] in Hseg.
  rewrite (title_has_issue_number_prefix title rest (x :: p') b (c :: a)
             (c :: tl) Hp Hf).
  - cbn [dropwhile]. rewrite Hsp. cbn [takewhile].
    unfold nonspace_char at 1. rewrite Hsp. cbn [negb isdigit forallb].
    now rewrite Hdg.
  - apply cut_before_spec. now rewrite Hseg.
Qed.

Lemma non_digit_after_handle_fails_witness :
  title_has_issue_number [line "feat: x jr::123"] = inr (false, HNoNumber).
Proof.
  apply (non_digit_after_handle_fails
           (line "feat: x jr::123") [] (lit "jr:") (lit "feat: x ")
           (line "123") 58%N).
  - apply jr_first. vm_compute. reflexivity.
  - apply partition_spec. vm_compute. reflexivity.
  - reflexivity.
  - reflexivity.
  - vm_compute. discriminate.
Defined.

(** X15.  Decimal digits [0] to [9] right after the first occurrence of
    the handle, followed by a whitespace character such as the newline that
    ends the title, make [title_has_issue_number] pass, whatever comes
    before the handle and after that whitespace. *)
Theorem ascii_number_after_handle_passes
        (title : pystr) (rest : list pystr) (p b ds a : pystr) (w : char) :
  first_matching_prefix title p ->
  first_occurrence p title b (ds ++ w :: a) ->
  ds <> [] -> Forall (fun d => (48 <= d <= 57)%N) ds ->
  isspace_char w = true ->
  title_has_issue_number (title :: rest) = inr (true, HNone).
Proof.
  intros Hp Hf Hne Hds Hw.
  destruct (first_matching_prefix_in _ _ Hp) as [name Hin].
  destruct (catalog_handle_head _ _ Hin) as (x & p' & -> & Hxs & Hx57).
  assert (Hx : ~ In x (ds ++ [w])).
  { intros H. apply in_app_or in H as [H|[->|[]]].
    - rewrite Forall_forall in Hds. specialize (Hds _ H). lia.
    - congruence. }
  destruct (cut_keeps_prefix x p' (ds ++ [w]) a Hx) as [tl Hseg].
  rewrite <- !app_assoc in Hseg. cbn [app] in Hseg.
  assert (Hnonspace : forallb nonspace_char ds = true).
  { apply forallb_forall. intros d Hd. rewrite Forall_forall in Hds.
    unfold nonspace_char.
    now rewrite (proj2 (ascii_digit_char d (Hds d Hd))). }
  assert (Hdigits : forallb isdigit_char ds = true).
  { apply forallb_forall. intros d Hd. rewrite Forall_forall in Hds.
    exact (proj1 (ascii_digit_char d (Hds d Hd))). }
  rewrite (title_has_issue_number_prefix title rest (x :: p') b
             (ds ++ w :: a) (ds ++ w :: tl) Hp Hf).
  - destruct ds as [|d ds']; [congruence|].
    cbn [app dropwhile].
    cbn [forallb] in Hnonspace. apply andb_prop in Hnonspace as [Hd Hds'].
    unfold nonspace_char in Hd.
    destruct (isspace_char d) eqn:Ed; [discriminate|].
    change (d :: ds' ++ w :: tl) with ((d :: ds') ++ w :: tl).
    rewrite takewhile_app_all.
    + unfold isdigit. now rewrite Hdigits.
    + cbn [forallb]. unfold nonspace_char at 1. rewrite Ed. exact Hds'.
    + unfold nonspace_char. now rewrite Hw.
  - apply cut_before_spec. now rewrite Hseg.
Qed.

Lemma ascii_number_after_handle_passes_witness :
  title_has_issue_number [line "feat: add x gh:42"] = inr (true, HNone).
Proof.
  apply (ascii_number_after_handle_passes
           (line "feat: add x gh:42") [] (lit "gh:") (lit "feat: add x ")
           (lit "42") [] nl).
  - apply gh_first; vm_compute; reflexivity.
  - apply partition_spec. vm_compute. reflexivity.
  - discriminate.
  - repeat constructor; vm_compute; discriminate.
  - reflexivity.
Defined.

(* ===================================================================== *)
(** ** The gate and the exit status, on the validators of the message *)
(* ===================================================================== *)

(** How a run depends on the results of the validators on the message. *)
Lemma lint_lines_flow (msg : list pystr) :
  let six :=
    passes (has_title_and_body msg) && passes (title_within_max_length msg) &&
    passes (has_title_body_separator msg) && passes (has_trailing_line msg) &&
    passes (body_within_max_length msg) &&
    passes (title_starts_with_commit_type msg) in
  (six = true -> flag_of (commit_type_require_issue_number msg) = true ->
   calls (fst (lint_lines msg)) =
     [(HasTitleAndBody, has_title_and_body msg);
      (TitleWithinMaxLength, title_within_max_length msg);
      (HasTitleBodySeparator, has_title_body_separator msg);
      (HasTrailingLine, has_trailing_line msg);
      (BodyWithinMaxLength, body_within_max_length msg);
      (TitleStartsWithCommitType, title_starts_with_commit_type msg);
      (CommitTypeRequireIssueNumber, commit_type_require_issue_number msg);
      (TitleHasIssueNumber, title_has_issue_number msg)] /\
   (snd (lint_lines msg) = Return 0%Z <->
    passes (title_has_issue_number msg) = true)) /\
  (six = true -> flag_of (commit_type_require_issue_number msg) = false ->
   calls (fst (lint_lines msg)) =
     [(HasTitleAndBody, has_title_and_body msg);
      (TitleWithinMaxLength, title_within_max_length msg);
      (HasTitleBodySeparator, has_title_body_separator msg);
      (HasTrailingLine, has_trailing_line msg);
      (BodyWithinMaxLength, body_within_max_length msg);
      (TitleStartsWithCommitType, title_starts_with_commit_type msg);
      (CommitTypeRequireIssueNumber, commit_type_require_issue_number msg)] /\
   snd (lint_lines msg) = Return 0%Z) /\
  (In CommitTypeRequireIssueNumber
      (List.map fst (calls (fst (lint_lines msg)))) <-> six = true) /\
  (In TitleHasIssueNumber (List.map fst (calls (fst (lint_lines msg)))) <->
   six = true /\ flag_of (commit_type_require_issue_number msg) = true).
Proof.
  cbv zeta.
  lint_cases msg
    ltac:(cbn; repeat split; intros;
          repeat match goal with
                 | H : _ \/ _ |- _ => destruct H
                 | H : _ /\ _ |- _ => destruct H
                 end;
          try discriminate; try contradiction; try reflexivity; auto 10).
Qed.


Lemma passes_iff (res : outcome_of_rule) :
  passes res = true <-> exists h, res = inr (true, h).
Proof.
  destruct res as [e|[[|] h]]; cbn [passes]; split;
    try discriminate; eauto; intros [h' H]; discriminate.
Qed.

Lemma first_six_pass_iff (msg : list pystr) :
  (forall r, In r (firstn 6 rule_order) ->
             exists h, validator r msg = inr (true, h)) <->
  passes (has_title_and_body msg) && passes (title_within_max_length msg) &&
  passes (has_title_body_separator msg) && passes (has_trailing_line msg) &&
  passes (body_within_max_length msg) &&
  passes (title_starts_with_commit_type msg) = true.
Proof.
  rewrite <- first_six_pass. split; intros H r Hr.
  - apply passes_iff. now apply H.
  - apply passes_iff. now apply H.
Qed.

(** With the first six validators passing, the seventh does not raise. *)
Lemma gate_flag_after_six (msg : list pystr) :
  (forall r, In r (firstn 6 rule_order) ->
             exists h, validator r msg = inr (true, h)) ->
  exists flag,
    commit_type_require_issue_number msg = inr (flag, HNone) /\
    flag_of (commit_type_require_issue_number msg) = flag.
Proof.
  intros H. destruct (H HasTitleAndBody) as [h E]; [simpl; auto|].
  cbn [validator] in E.
  apply has_title_and_body_true in E as (title & sep & rest & -> & _).
  rewrite gate_on_title. cbn [flag_of]. eauto.
Qed.

(** C8.  [commit_type_require_issue_number] returns a true flag exactly when
    the title starts with [feat:] or [fix:].  It is called exactly when the
    first six validators pass on the message, the call recorded is its result
    on the message, and the run then goes on: with a false flag the run
    returns 0 after these seven calls, without calling
    [title_has_issue_number]; with a true flag all eight validators are
    called on the message and the run returns 0 exactly when
    [title_has_issue_number] passes.  The message of scenario C returns 0
    after seven calls. *)
Theorem gate_never_fails :
  (forall (title : pystr) (rest : list pystr),
      commit_type_require_issue_number (title :: rest) =
      inr (startswith title (lit "feat:") || startswith title (lit "fix:"),
           HNone)) /\
  (forall (msg : list pystr) (res : outcome_of_rule),
      let run := lint_lines msg in
      In (CommitTypeRequireIssueNumber, res) (calls (fst run)) ->
      res = commit_type_require_issue_number msg /\
      ((res = inr (false, HNone) /\ snd run = Return 0%Z /\
        List.map fst (calls (fst run)) = firstn 7 rule_order) \/
       (res = inr (true, HNone) /\
        List.map fst (calls (fst run)) = rule_order))) /\
  (forall msg : list pystr,
      (forall r, In r (firstn 6 rule_order) ->
                 exists h, validator r msg = inr (true, h)) ->
      (exists h, commit_type_require_issue_number msg = inr (false, h)) ->
      snd (lint_lines msg) = Return 0%Z /\
      calls (fst (lint_lines msg)) =
        List.map (fun r => (r, validator r msg)) (firstn 7 rule_order)) /\
  (forall msg : list pystr,
      (forall r, In r (firstn 6 rule_order) ->
                 exists h, validator r msg = inr (true, h)) ->
      (exists h, commit_type_require_issue_number msg = inr (true, h)) ->
      calls (fst (lint_lines msg)) =
        List.map (fun r => (r, validator r msg)) rule_order /\
      (snd (lint_lines msg) = Return 0%Z <->
       exists h, title_has_issue_number msg = inr (true, h))) /\
  (forall msg : list pystr,
      In CommitTypeRequireIssueNumber
         (List.map fst (calls (fst (lint_lines msg)))) <->
      forall r, In r (firstn 6 rule_order) ->
                exists h, validator r msg = inr (true, h)) /\
  (calls (fst (lint_lines scenario_C)) =
     [(HasTitleAndBody, inr (true, HNone));
      (TitleWithinMaxLength, inr (true, HNone));
      (HasTitleBodySeparator, inr (true, HNone));
      (HasTrailingLine, inr (true, HNone));
      (BodyWithinMaxLength, inr (true, HNone));
      (TitleStartsWithCommitType, inr (true, HNone));
      (CommitTypeRequireIssueNumber, inr (false, HNone))] /\
   snd (lint_lines scenario_C) = Return 0%Z /\
   exit_status (lint_lines scenario_C) = 0%Z).
Proof.
  split; [exact gate_on_title|].
  split; [|split; [|split; [|split]]].
  - intros msg res run Hin.
    destruct (lint_lines_run msg) as (n & Hcs & _ & _ & _ & H7 & H8 & Hle).
    fold run in Hcs, H7. rewrite Hcs in Hin.
    apply seventh_call in Hin as [Hn ->].
    split; [reflexivity|].
    assert (Hmap : List.map fst (calls (fst run)) = firstn n rule_order).
    { rewrite Hcs, map_map. apply map_id. }
    assert (Hh : forall flag h,
               commit_type_require_issue_number msg = inr (flag, h) ->
               h = HNone).
    { intros flag h E. destruct msg as [|title rest]; [discriminate|].
      rewrite gate_on_title in E. now inversion E. }
    destruct Hn as [-> | [-> | Hn]]; [| |lia].
    + left. destruct (H7 eq_refl) as (h & E & R). cbn [validator] in E.
      rewrite E, (Hh _ _ E). auto.
    + right. destruct (H8 eq_refl) as (h & E). cbn [validator] in E.
      rewrite E, (Hh _ _ E). auto.
  - intros msg Hsix [h7 E7].
    destruct (lint_lines_flow msg) as (_ & Hfalse & _).
    apply first_six_pass_iff in Hsix.
    destruct (Hfalse Hsix) as [Hcalls Hret]; [now rewrite E7|].
    split; [exact Hret | exact Hcalls].
  - intros msg Hsix [h7 E7].
    destruct (lint_lines_flow msg) as (Htrue & _).
    apply first_six_pass_iff in Hsix.
    destruct (Htrue Hsix) as [Hcalls Hret]; [now rewrite E7|].
    split; [exact Hcalls|]. rewrite Hret. apply passes_iff.
  - intros msg.
    destruct (lint_lines_flow msg) as (_ & _ & Hgate & _).
    rewrite Hgate. symmetry. apply first_six_pass_iff.
  - repeat split; vm_compute; reflexivity.
Qed.

Lemma gate_never_fails_witness :
  snd (lint_lines scenario_C) = Return 0%Z /\
  calls (fst (lint_lines scenario_C)) =
    List.map (fun r => (r, validator r scenario_C)) (firstn 7 rule_order).
Proof.
  destruct gate_never_fails as (_ & _ & H & _).
  apply (H scenario_C).
  - intros r Hr. exists HNone.
    simpl in Hr.
    repeat (destruct Hr as [<-|Hr]; [vm_compute; reflexivity|]).
    contradiction.
  - exists HNone. vm_compute. reflexivity.
Defined.

(** C9.  For the message of scenario B every validator returns a true flag,
    the run returns 0 and the process exits with status 0.  For every
    message the calls of the run are the validators of an initial segment of
    the fixed order applied to the message, the exit status is 0 or 1, and it
    is 0 exactly when all the rules pass on the message: the first six
    validators return a true flag and either the gate returns a false flag
    or [title_has_issue_number] returns a true flag.  Equivalently it is 0
    exactly when no call of the run failed, and 1 exactly when one did. *)
Theorem exit_status_reflects_first_failure :
  (calls (fst (lint_lines scenario_B)) =
     List.map (fun r => (r, inr (true, HNone))) rule_order /\
   snd (lint_lines scenario_B) = Return 0%Z /\
   exit_status (lint_lines scenario_B) = 0%Z /\
   get_commit_message
     (line "feat: add x gh:42" ++ line "" ++ line "body line" ++ line "")
     false = scenario_B) /\
  (forall msg : list pystr,
      let run := lint_lines msg in
      (exit_status run = 0%Z <->
       forall c, In c (calls (fst run)) -> failed c = false) /\
      (exit_status run = 1%Z <->
       exists c, In c (calls (fst run)) /\ failed c = true) /\
      (exit_status run = 0%Z -> snd run = Return 0%Z) /\
      (exit_status run = 0%Z <->
       (forall r, In r (firstn 6 rule_order) ->
                  exists h, validator r msg = inr (true, h)) /\
       ((exists h, commit_type_require_issue_number msg = inr (false, h)) \/
        (exists h, title_has_issue_number msg = inr (true, h)))) /\
      (exit_status run = 0%Z \/ exit_status run = 1%Z) /\
      (exists n,
          calls (fst run) =
          List.map (fun r => (r, validator r msg)) (firstn n rule_order))).
Proof.
  split.
  - repeat split; vm_compute; reflexivity.
  - intros msg run.
    destruct (lint_lines_run msg) as (n & Hcs & _ & Hexit & Hpass & _).
    fold run in Hcs, Hexit, Hpass.
    assert (Hzero : exit_status run = 0%Z <-> snd run = Return 0%Z).
    { split.
      - rewrite Hexit.
        destruct (existsb failed (calls (fst run))); [discriminate|].
        intros _. now apply Hpass.
      - intros H. unfold exit_status. now rewrite H. }
    split; [|split; [|split; [|split; [|split]]]].
    + rewrite Hexit. destruct (existsb failed (calls (fst run))) eqn:E.
      * split; [discriminate|]. intros H. apply existsb_failed in H.
        congruence.
      * split; [|reflexivity]. intros _. now apply existsb_failed.
    + rewrite Hexit. destruct (existsb failed (calls (fst run))) eqn:E.
      * split; [|reflexivity]. intros _. apply existsb_exists in E. exact E.
      * split; [discriminate|].
        intros (c & Hc & Hf). rewrite (proj1 (existsb_failed _) E c Hc) in Hf.
        discriminate.
    + apply Hzero.
    + rewrite Hzero. unfold run. rewrite lint_lines_returns_zero.
      rewrite <- first_six_pass_iff. split.
      * intros [Hsix Hlast]. split; [exact Hsix|].
        destruct (gate_flag_after_six msg Hsix) as (flag & Eg & Ef).
        destruct Hlast as [Hf|Hp].
        -- left. rewrite Ef in Hf. subst flag. eauto.
        -- right. now apply passes_iff.
      * intros [Hsix Hlast]. split; [exact Hsix|].
        destruct Hlast as [[h Eg]|Hp].
        -- left. now rewrite Eg.
        -- right. now apply passes_iff.
    + rewrite Hexit. destruct (existsb failed (calls (fst run))); auto.
    + now exists n.
Qed.

Lemma exit_status_reflects_first_failure_witness :
  snd (lint_lines scenario_C) = Return 0%Z.
Proof.
  destruct (proj2 exit_status_reflects_first_failure scenario_C)
    as (_ & _ & H & _).
  apply H. vm_compute. reflexivity.
Defined.
